(** * Silicon-Ally/aplos: a shallow embedding of the Aplos API client

    The Go package [aplos] (files [types.go] and [aplos.go]) is a thin client:
    nearly every line calls into the Go standard library or into
    [golang.org/x/oauth2].  The embedding therefore has three layers.

    - The pure library routines whose exact output the package relies on are
      written out as Rocq functions, following the library's own loops:
      [fmt.Sprintf] with the verb [%0Nd], [strconv.Itoa], [time.Parse] for the
      layout ["2006-01-02"], [url.QueryEscape] and [url.Values.Encode], and
      the token-reuse logic of [oauth2.ReuseTokenSource].
    - Everything that reaches outside the process or into cryptography (the
      network, the file system, JSON decoding of response bodies, base64, RSA,
      X.509) is a field of the record [Env]: the package is verified for every
      environment.
    - The package's own functions are then transcribed one by one, keeping
      their names, over an explicit [World] (clock and request log).

    Left out: [Time.UnmarshalJSON] (the timestamp layout), which only runs
    inside the JSON decoding of a response; the [context.Context] of the
    operations (cancellation and deadlines); and what [net/http] does between
    a request and its response (redirects, connection reuse).  The example
    command [salary] is a caller of the package and is not modelled. *)

From Stdlib Require Import ZArith List String Ascii Bool Lia PrimFloat.
Import ListNotations.

Local Open Scope string_scope.
Local Open Scope Z_scope.

(** ** Go values *)

(** A Go [string] is a sequence of bytes: Rocq's [string] of [ascii]. *)
Definition byte_val (c : ascii) : Z := Z.of_N (N_of_ascii c).
Definition byte_of (z : Z) : ascii := ascii_of_N (Z.to_N z).

(** Go's [error] values as this package builds them: an error handed up by a
    library call, [fmt.Errorf("<msg>: %w", err)] wrapping a cause, and
    [fmt.Errorf] without a wrapped cause. *)
Inductive error : Type :=
| LibError (msg : string)
| Wrapf (msg : string) (cause : error)
| Plainf (msg : string).

(** [errors.Is] for the error values above: [target] is on the chain of [e]. *)
Fixpoint error_eqb (a b : error) : bool :=
  match a, b with
  | LibError m, LibError n => String.eqb m n
  | Plainf m, Plainf n => String.eqb m n
  | Wrapf m c, Wrapf n d => String.eqb m n && error_eqb c d
  | _, _ => false
  end.

Fixpoint errors_Is (e target : error) : bool :=
  error_eqb e target ||
  match e with
  | Wrapf _ cause => errors_Is cause target
  | _ => false
  end.

(** ** Package [fmt]: the verb [%0Nd] *)

Module fmt.

(** The digit loop of [fmtInteger] (package fmt, file format.go) for base
    10: digits are written from the end of the buffer, least significant
    first.  [fuel] bounds the loop; [digits_fuel] below always suffices. *)
Fixpoint digits (fuel : nat) (u : Z) (buf : string) : string :=
  match fuel with
  | O => String (byte_of (48 + u)) buf
  | S fuel' =>
      if 10 <=? u
      then let next := u / 10 in
           digits fuel' next (String (byte_of (48 + u - next * 10)) buf)
      else String (byte_of (48 + u)) buf
  end.

Definition digits_fuel (u : Z) : nat := S (Z.to_nat (Z.log2 u)).

(** The zero-padding loop: [for i > 0 && prec > len(buf)-i { buf[i] = '0' }]. *)
Fixpoint zeros (n : nat) (buf : string) : string :=
  match n with
  | O => buf
  | S n' => String "0" (zeros n' buf)
  end.

(** [%0<wid>d] applied to a signed integer: zero padding is done as a
    precision of [wid], one less when a sign is written. *)
Definition fmt0d (wid : nat) (v : Z) : string :=
  let negative := v <? 0 in
  let u := Z.abs v in
  let prec := if negative then Nat.pred wid else wid in
  let ds := digits (digits_fuel u) u "" in
  let ds := zeros (prec - String.length ds) ds in
  if negative then String "-" ds else ds.

End fmt.

(** ** Package [strconv] *)

Module strconv.

(** [strconv.Itoa]: plain decimal, a leading [-] for negative numbers. *)
Definition Itoa (v : Z) : string :=
  let ds := fmt.digits (fmt.digits_fuel (Z.abs v)) (Z.abs v) "" in
  if v <? 0 then String "-" ds else ds.

End strconv.

(** ** Package [time]: [Parse] with the layout ["2006-01-02"] *)

Module time.

(** [time.Month] is an integer type; [January = 1]. *)
Definition Month := Z.
Definition February : Month := 2.

Definition isLeap (year : Z) : bool :=
  (year mod 4 =? 0) && (negb (year mod 100 =? 0) || (year mod 400 =? 0)).

(** [daysBefore[m] - daysBefore[m-1]]. *)
Definition month_length (m : Month) : Z :=
  match m with
  | 1 => 31 | 2 => 28 | 3 => 31 | 4 => 30 | 5 => 31 | 6 => 30
  | 7 => 31 | 8 => 31 | 9 => 30 | 10 => 31 | 11 => 30 | 12 => 31
  | _ => 0
  end.

Definition daysIn (m : Month) (year : Z) : Z :=
  if (m =? February) && isLeap year then 29 else month_length m.

(** [isDigit(s, i)]: [s[i]] exists and is a decimal digit. *)
Definition isDigit (s : string) (i : nat) : bool :=
  match String.get i s with
  | Some c => (48 <=? byte_val c) && (byte_val c <=? 57)
  | None => false
  end.

(** [leadingInt]: consumes the leading digits of [s]; [None] is
    [errLeadingInt] (overflow of the 64-bit accumulator). *)
Fixpoint leadingInt_from (x : Z) (s : string) : option (Z * string) :=
  match s with
  | EmptyString => Some (x, s)
  | String c s' =>
      if (byte_val c <? 48) || (57 <? byte_val c) then Some (x, s)
      else if 2 ^ 63 / 10 <? x then None
      else let x' := x * 10 + byte_val c - 48 in
           if 2 ^ 63 <? x' then None else leadingInt_from x' s'
  end.

Definition leadingInt (s : string) : option (Z * string) := leadingInt_from 0 s.

(** [atoi]: an optional sign, then digits up to the end of the string. *)
Definition atoi (s : string) : option Z :=
  let '(neg, s) :=
    match s with
    | String c s' =>
        if (byte_val c =? 45) || (byte_val c =? 43) then (byte_val c =? 45, s') else (false, s)
    | EmptyString => (false, s)
    end in
  match leadingInt s with
  | Some (q, EmptyString) => Some (if neg then - q else q)
  | _ => None
  end.

(** [getnum(s, fixed)]: one or two digits, exactly two when [fixed]. *)
Definition getnum (s : string) (fixed : bool) : option (Z * string) :=
  if negb (isDigit s 0) then None
  else if negb (isDigit s 1) then
    if fixed then None
    else match s with
         | String c s' => Some (byte_val c - 48, s')
         | EmptyString => None
         end
  else match s with
       | String c0 (String c1 s') => Some ((byte_val c0 - 48) * 10 + (byte_val c1 - 48), s')
       | _ => None
       end.

(** [skip(value, prefix)] for the one-byte literal [-] between the fields. *)
Definition skip_dash (value : string) : option string :=
  match value with
  | String c value' => if byte_val c =? 45 then Some value' else None
  | EmptyString => None
  end.

(** A [time.Time] is used in two ways by the package, and the model keeps one
    view for each, since nothing in the package converts between them.

    As a calendar day: the [Time] that [Parse] builds from a date-only layout
    is midnight UTC of a day that [Parse] has already validated, so that
    [Time.Date] gives the three fields back unchanged. *)
Record Time : Type := mkTime { t_year : Z; t_month : Month; t_day : Z }.

(** As an instant: nanoseconds since the zero [Time] (January 1 of year 1,
    UTC), so that [t.IsZero()] is [t = 0] and [a.Before(b)] is [a < b]. *)
Definition Instant := Z.

Definition Time_Date (t : Time) : Z * Month * Z := (t_year t, t_month t, t_day t).

(** [time.Parse("2006-01-02", value)].  The layout splits into the chunks
    [stdLongYear], ["-"] [stdZeroMonth], ["-"] [stdZeroDay]; what is left of
    [value] afterwards is an error, and the day is checked against the month
    once every field is read.  The error messages stand for the
    [time.ParseError] of each failure site. *)
Definition Parse_date (value : string) : error + Time :=
  if (Nat.ltb (String.length value) 4) || negb (isDigit value 0)
  then inl (LibError "parsing time: cannot parse year")
  else
    let p := String.substring 0 4 value in
    let value := String.substring 4 (String.length value - 4) value in
    match atoi p with
    | None => inl (LibError "parsing time: cannot parse year")
    | Some year =>
    match skip_dash value with
    | None => inl (LibError "parsing time: cannot parse separator")
    | Some value =>
    match getnum value true with
    | None => inl (LibError "parsing time: cannot parse month")
    | Some (month, value) =>
    if (month <=? 0) || (12 <? month)
    then inl (LibError "parsing time: month out of range")
    else
    match skip_dash value with
    | None => inl (LibError "parsing time: cannot parse separator")
    | Some value =>
    match getnum value true with
    | None => inl (LibError "parsing time: cannot parse day")
    | Some (day, value) =>
    if negb (Nat.eqb (String.length value) 0)
    then inl (LibError "parsing time: extra text")
    else if (day <? 1) || (daysIn month year <? day)
    then inl (LibError "parsing time: day out of range")
    else inr (mkTime year month day)
    end end end end end.

End time.

(** ** [types.go] *)

Record Date : Type := mkDate { Year : Z; Month : time.Month; Day : Z }.

(** [func (d Date) String() string]:
    [fmt.Sprintf("%04d-%02d-%02d", d.Year, d.Month, d.Day)]. *)
Definition Date_String (d : Date) : string :=
  fmt.fmt0d 4 (Year d) ++ "-" ++ fmt.fmt0d 2 (Month d) ++ "-" ++ fmt.fmt0d 2 (Day d).

(** The second half of [Date.UnmarshalJSON] (lines 48 to 57), once the JSON
    string [s] is in hand: parse it, take the date apart, build the [Date]. *)
Definition parseDate (s : string) : error + Date :=
  match time.Parse_date s with
  | inl err => inl (Wrapf "failed to parse date" err)
  | inr tmp =>
      let '(y, m, day) := time.Time_Date tmp in
      inr {| Year := y; Month := m; Day := day |}
  end.

(** ** Package [net/url]: query strings *)

Module url.

(** [shouldEscape(c, encodeQueryComponent)]: letters, digits and the marks
    [-], [_], [.], [~] are kept; every other byte is escaped. *)
Definition shouldEscape (c : ascii) : bool :=
  let n := byte_val c in
  negb (((97 <=? n) && (n <=? 122)) || ((65 <=? n) && (n <=? 90))
        || ((48 <=? n) && (n <=? 57))
        || (n =? 45) || (n =? 95) || (n =? 46) || (n =? 126)).

(** [upperhex[i]], the digit of ["0123456789ABCDEF"]. *)
Definition upperhex (i : Z) : ascii :=
  if i <? 10 then byte_of (48 + i) else byte_of (55 + i).

(** [url.QueryEscape]: a space becomes [+], an escaped byte [%XX]. *)
Fixpoint QueryEscape (s : string) : string :=
  match s with
  | EmptyString => EmptyString
  | String c s' =>
      if shouldEscape c then
        if byte_val c =? 32 then String "+" (QueryEscape s')
        else String "%" (String (upperhex (byte_val c / 16))
                           (String (upperhex (byte_val c mod 16)) (QueryEscape s')))
      else String c (QueryEscape s')
  end.

(** [url.Values] is [map[string][]string]: here the list of its keys, each
    once, with the values added under it in order. *)
Definition Values := list (string * list string).

(** [v.Add(key, value)]: [v[key] = append(v[key], value)]. *)
Fixpoint Add (v : Values) (key value : string) : Values :=
  match v with
  | [] => [(key, [value])]
  | (k, vs) :: v' =>
      if String.eqb k key then (k, (vs ++ [value])%list) :: v'
      else (k, vs) :: Add v' key value
  end.

(** [v[key]], the values under [key] ([nil] when the key is absent). *)
Fixpoint Lookup (v : Values) (key : string) : list string :=
  match v with
  | [] => []
  | (k, vs) :: v' => if String.eqb k key then vs else Lookup v' key
  end.

(** [slices.Sort(keys)]: the entries in increasing byte order of their keys. *)
Fixpoint insert_by_key (e : string * list string) (v : Values) : Values :=
  match v with
  | [] => [e]
  | e' :: v' =>
      if String.leb (fst e) (fst e') then e :: e' :: v' else e' :: insert_by_key e v'
  end.

Definition sort_by_key (v : Values) : Values := fold_right insert_by_key [] v.

(** The two loops of [Values.Encode]: one [key=value] per value, joined by
    [&], which is written whenever the buffer is not empty. *)
Definition write_pair (keyEscaped : string) (buf value : string) : string :=
  let buf := if Nat.ltb 0 (String.length buf) then buf ++ "&" else buf in
  buf ++ keyEscaped ++ "=" ++ QueryEscape value.

Definition Encode (v : Values) : string :=
  fold_left
    (fun buf '(k, vs) => fold_left (write_pair (QueryEscape k)) vs buf)
    (sort_by_key v) "".

End url.

(** ** Package [golang.org/x/oauth2]: tokens and their reuse *)

Module oauth2.

(** [oauth2.Token]. *)
Record Token : Type := mkToken {
  AccessToken : string;
  TokenType : string;
  Expiry : time.Instant
}.

(** [defaultExpiryDelta = 10 * time.Second]: a token counts as expired ten
    seconds before its [Expiry]. *)
Definition defaultExpiryDelta : Z := 10 * 1000000000.

(** [func (t *Token) expired() bool]: a zero [Expiry] never expires. *)
Definition expired (t : Token) (timeNow : time.Instant) : bool :=
  if Expiry t =? 0 then false
  else Expiry t - defaultExpiryDelta <? timeNow.

(** [func (t *Token) Valid() bool]:
    [t != nil && t.AccessToken != "" && !t.expired()]. *)
Definition Valid (t : option Token) (timeNow : time.Instant) : bool :=
  match t with
  | None => false
  | Some t => negb (String.eqb (AccessToken t) "") && negb (expired t timeNow)
  end.

(** ASCII case folding, for [strings.EqualFold] against an ASCII word. *)
Definition lower (c : ascii) : ascii :=
  if (65 <=? byte_val c) && (byte_val c <=? 90) then byte_of (byte_val c + 32) else c.

Fixpoint EqualFold (s t : string) : bool :=
  match s, t with
  | EmptyString, EmptyString => true
  | String a s', String b t' => Ascii.eqb (lower a) (lower b) && EqualFold s' t'
  | _, _ => false
  end.

(** [func (t *Token) Type() string]. *)
Definition Type_ (t : Token) : string :=
  if EqualFold (TokenType t) "bearer" then "Bearer"
  else if EqualFold (TokenType t) "mac" then "MAC"
  else if EqualFold (TokenType t) "basic" then "Basic"
  else if negb (String.eqb (TokenType t) "") then TokenType t
  else "Bearer".

End oauth2.

(** ** The outside world *)

(** An HTTP GET as the package issues it: the URL, and the [Authorization]
    header when the request goes through the OAuth2 transport. *)
Record Request : Type := mkRequest {
  req_url : string;
  req_authorization : option string
}.

(** What the package can observe and change outside itself: the clock read
    by [timeNow], and the requests sent so far, oldest first. *)
Record World : Type := mkWorld {
  clock : time.Instant;
  sent : list Request
}.

(** The dynamic type of the key that [x509.ParsePKCS8PrivateKey] returns. *)
Inductive PKCS8Key (rsaKey : Type) : Type :=
| Key_rsa (k : rsaKey)
| Key_ecdsa
| Key_ed25519
| Key_ecdh.

Arguments Key_rsa {rsaKey} k.
Arguments Key_ecdsa {rsaKey}.
Arguments Key_ed25519 {rsaKey}.
Arguments Key_ecdh {rsaKey}.

(** [%T] of such a key. *)
Definition type_name {rsaKey : Type} (k : PKCS8Key rsaKey) : string :=
  match k with
  | Key_rsa _ => "*rsa.PrivateKey"
  | Key_ecdsa => "*ecdsa.PrivateKey"
  | Key_ed25519 => "ed25519.PrivateKey"
  | Key_ecdh => "*ecdh.PrivateKey"
  end.

(** ** [aplos.go]: the data model *)

(** [type Time struct { time.Time }] of [types.go]. *)
Record Time : Type := mkAplosTime { time_Time : time.Instant }.

Record AccountGroup : Type := mkAccountGroup {
  AccountGroup_ID : Z;
  AccountGroup_Name : string;
  Seq : Z
}.

Record Account : Type := mkAccount {
  AccountNumber : Z;
  Account_Name : string;
  Category : string;
  Account_AccountGroup : option AccountGroup;
  IsEnabled : bool;
  Account_Type : string;
  Activity : string
}.

Record Fund : Type := mkFund { Fund_ID : Z; Fund_Name : string }.

Record TransactionLine : Type := mkTransactionLine {
  TransactionLine_ID : Z;
  TransactionLine_Amount : float;
  TransactionLine_Account : Account;
  TransactionLine_Fund : Fund
}.

Record Transaction : Type := mkTransaction {
  ID : Z;
  Memo : string;
  Transaction_Date : Date;
  IDNumber : Z;
  Created : Time;
  Amount : float;
  InClosedPeriod : bool;
  Lines : list TransactionLine
}.

(** The four response envelopes.  Each struct has the fields [Version],
    [Status] and [Data]; the field names carry the struct's name here. *)
Record getTransactionResponseData : Type :=
  mkGetTransactionResponseData { Data_Transaction : Transaction }.

Record getTransactionResponse : Type := mkGetTransactionResponse {
  getTransaction_Version : string;
  getTransaction_Status : Z;
  getTransaction_Data : getTransactionResponseData
}.

Record listAccountsResponseData : Type :=
  mkListAccountsResponseData { Data_Accounts : list Account }.

Record listAccountsResponse : Type := mkListAccountsResponse {
  listAccounts_Version : string;
  listAccounts_Status : Z;
  listAccounts_Data : listAccountsResponseData
}.

Record listTransactionsResponseData : Type :=
  mkListTransactionsResponseData { Data_Transactions : list Transaction }.

Record listTransactionsResponse : Type := mkListTransactionsResponse {
  listTransactions_Version : string;
  listTransactions_Status : Z;
  listTransactions_Data : listTransactionsResponseData
}.

Record authResponseData : Type := mkAuthResponseData {
  Expires : Time;
  Token : string
}.

Record authResponse : Type := mkAuthResponse {
  auth_Version : string;
  auth_Status : Z;
  auth_Data : authResponseData
}.

(** ** The environment *)

(** The library calls that leave the process or do cryptography.  A call
    returns [inl err] for Go's [(zero, err)] and [inr v] for [(v, nil)].

    - [http_RoundTrip w req] is what the network answers to [req] in the world
      [w]: a transport error or the whole response body, and the clock when
      the call returns.  (The package never looks at the HTTP status code.
      A connection that breaks while the body is read reaches the package as
      an error of [Decode]; it is not told apart from a body that does not
      decode.)
    - [json_Decode_*] is [json.NewDecoder(body).Decode(&v)] for each envelope
      type, [json_Unmarshal_string] is [json.Unmarshal(data, &s)] for a
      [string]. *)
Class Env : Type := {
  rsa_PrivateKey : Type;
  os_ReadFile : string -> error + string;
  base64_DecodeString : string -> error + string;
  x509_ParsePKCS8PrivateKey : string -> error + PKCS8Key rsa_PrivateKey;
  rsa_DecryptPKCS1v15 : rsa_PrivateKey -> string -> error + string;
  http_RoundTrip : World -> Request -> (error + string) * time.Instant;
  json_Unmarshal_string : string -> error + string;
  json_Decode_authResponse : string -> error + authResponse;
  json_Decode_getTransactionResponse : string -> error + getTransactionResponse;
  json_Decode_listAccountsResponse : string -> error + listAccountsResponse;
  json_Decode_listTransactionsResponse : string -> error + listTransactionsResponse
}.

(** Code that acts on the world threads it explicitly. *)
Definition M (A : Type) : Type := World -> A * World.

Definition ret {A : Type} (a : A) : M A := fun w => (a, w).

Definition bind {A B : Type} (m : M A) (k : A -> M B) : M B :=
  fun w => let (a, w') := m w in k a w'.

Notation "'perform' x '<-' m ';;' k" := (bind m (fun x => k))
  (at level 10, x name, m at level 100, k at level 200).

Section Package.

Context {E : Env}.

(** One request on the wire: it is logged, and the clock moves to the time
    of the answer. *)
Definition http_Do (req : Request) : M (error + string) :=
  fun w =>
    let (r, now) := http_RoundTrip w req in
    (r, {| clock := now; sent := (sent w ++ [req])%list |}).

(** [http.Get(url)] with the default client: no [Authorization] header. *)
Definition http_Get (url : string) : M (error + string) :=
  http_Do {| req_url := url; req_authorization := None |}.

(** *** [types.go]: [Date.UnmarshalJSON] *)

(** [func (d *Date) UnmarshalJSON(data []byte) error]: the value of [*d]
    after the call, and the error returned. *)
Definition Date_UnmarshalJSON (d : Date) (data : string) : Date * option error :=
  if String.eqb data "null" then (d, None)
  else
    match json_Unmarshal_string data with
    | inl err => (d, Some (Wrapf "failed to unmarshal JSON field as a string" err))
    | inr s =>
        match parseDate s with
        | inl err => (d, Some err)
        | inr d' => (d', None)
        end
    end.

(** *** Key loading *)

(** [func LoadPrivateKey(dat []byte)], returning an RSA key or an error. *)
Definition LoadPrivateKey (dat : string) : error + rsa_PrivateKey :=
  match x509_ParsePKCS8PrivateKey dat with
  | inl err => inl (Wrapf "failed to parse key as PKCS8" err)
  | inr key =>
      match key with
      | Key_rsa k => inr k
      | _ => inl (Plainf ("key was not an RSA key, was " ++ type_name key))
      end
  end.

(** [func LoadPrivateKeyFromFile(fp string)], returning an RSA key or an
    error. *)
Definition LoadPrivateKeyFromFile (fp : string) : error + rsa_PrivateKey :=
  match os_ReadFile fp with
  | inl err => inl (Wrapf "failed to read key file" err)
  | inr b64EncDat =>
      match base64_DecodeString b64EncDat with
      | inl err => inl (Wrapf "failed to base64 decode" err)
      | inr dat => LoadPrivateKey dat
      end
  end.

(** *** The token source *)

Record ts : Type := mkTs { clientID : string; key : rsa_PrivateKey }.

(** [func (t *ts) Token()], returning an [oauth2.Token] or an error. *)
Definition ts_Token (t : ts) : M (error + oauth2.Token) :=
  perform resp <- http_Get ("https://www.aplos.com/hermes/api/v1/auth/" ++ clientID t) ;;
  match resp with
  | inl err => ret (inl (Wrapf "failed to query auth endpoint" err))
  | inr body =>
      match json_Decode_authResponse body with
      | inl err => ret (inl (Wrapf "failed to decode auth response" err))
      | inr authResp =>
          match base64_DecodeString (Token (auth_Data authResp)) with
          | inl err => ret (inl (Wrapf "failed to base64 decode encrypted token" err))
          | inr encToken =>
              match rsa_DecryptPKCS1v15 (key t) encToken with
              | inl err => ret (inl (Wrapf "failed to decrypt token" err))
              | inr dec =>
                  ret (inr {| oauth2.AccessToken := dec;
                              oauth2.TokenType := "Bearer";
                              oauth2.Expiry := time_Time (Expires (auth_Data authResp)) |})
              end
          end
      end
  end.

(** [oauth2.reuseTokenSource]: the held token [t] (a pointer, possibly nil)
    and the source [new] that refreshes it.  The mutex of the Go struct
    serialises calls; one call is one step here. *)
Record reuseTokenSource : Type := mkReuseTokenSource {
  rts_t : option oauth2.Token;
  rts_new : ts
}.

(** [oauth2.ReuseTokenSource(t, src)]. *)
Definition ReuseTokenSource (t : oauth2.Token) (src : ts) : reuseTokenSource :=
  {| rts_t := Some t; rts_new := src |}.

(** [func (s *reuseTokenSource) Token()]: the held token
    while it is valid; otherwise one call of [s.new.Token()], whose token
    replaces the held one.  Returns the result and the source after the call. *)
Definition reuseTokenSource_Token (s : reuseTokenSource)
  : M ((error + oauth2.Token) * reuseTokenSource) :=
  fun w =>
    match oauth2.Valid (rts_t s) (clock w), rts_t s with
    | true, Some held => ((inr held, s), w)
    | _, _ =>
        let (r, w') := ts_Token (rts_new s) w in
        match r with
        | inl err => ((inl err, s), w')
        | inr t => ((inr t, {| rts_t := Some t; rts_new := rts_new s |}), w')
        end
    end.

(** [func newTokenSource(clientID string, key *rsa.PrivateKey)]. *)
Definition newTokenSource (clientID : string) (key : rsa_PrivateKey)
  : M (error + reuseTokenSource) :=
  let t := {| clientID := clientID; key := key |} in
  perform r <- ts_Token t ;;
  match r with
  | inl err => ret (inl (Wrapf "failed to get token" err))
  | inr tkn => ret (inr (ReuseTokenSource tkn t))
  end.

(** *** The client *)

(** [type Client struct { http *http.Client }], where the HTTP client is
    [oauth2.NewClient(ctx, ts)]: its transport asks the token source for a
    token before every request. *)
Record Client : Type := mkClient { http : reuseTokenSource }.

(** [func New(clientID string, pk *rsa.PrivateKey)], returning a client or
    an error. *)
Definition New (clientID : string) (pk : rsa_PrivateKey) : M (error + Client) :=
  perform r <- newTokenSource clientID pk ;;
  match r with
  | inl err => ret (inl (Wrapf "failed to get access token" err))
  | inr ts => ret (inr {| http := ts |})
  end.

(** [ctxhttp.Get(ctx, c.http, url)] through [oauth2.Transport.RoundTrip]:
    [Source.Token()] first, whose error ends the call before anything is
    sent; then the request with [token.SetAuthHeader]. *)
Definition ctxhttp_Get (c : Client) (url : string) : M ((error + string) * Client) :=
  fun w =>
    let '((r, src), w') := reuseTokenSource_Token (http c) w in
    match r with
    | inl err => ((inl err, {| http := src |}), w')
    | inr token =>
        let (resp, w'') :=
          http_Do {| req_url := url;
                     req_authorization :=
                       Some (oauth2.Type_ token ++ " " ++ oauth2.AccessToken token) |} w' in
        ((resp, {| http := src |}), w'')
    end.

(** The URL that [Transaction] requests. *)
Definition Transaction_url (id : Z) : string :=
  "https://www.aplos.com/hermes/api/v1/transactions/" ++ strconv.Itoa id.

(** [func (c *Client) Transaction(ctx, id)]. *)
Definition Client_Transaction (c : Client) (id : Z)
  : M ((error + Transaction) * Client) :=
  perform rc <- ctxhttp_Get c (Transaction_url id) ;;
  let (resp, c) := rc in
  match resp with
  | inl err => ret (inl (Wrapf "failed to list accounts" err), c)
  | inr body =>
      match json_Decode_getTransactionResponse body with
      | inl err => ret (inl (Wrapf "failed to decode get transaction response" err), c)
      | inr gResp => ret (inr (Data_Transaction (getTransaction_Data gResp)), c)
      end
  end.

Record listAccountsOpts : Type := mkListAccountsOpts { accountName : option string }.

(** [type ListAccountOption func(o *listAccountsOpts)]: an option updates
    the options struct it is given. *)
Definition ListAccountOption : Type := listAccountsOpts -> listAccountsOpts.

Definition WithAccountName (acctName : string) : ListAccountOption :=
  fun o => {| accountName := Some acctName |}.

(** The query of [Accounts]: [q.Add("f_name", *o.accountName)] when set. *)
Definition Accounts_query (o : listAccountsOpts) : url.Values :=
  let q : url.Values := [] in
  match accountName o with
  | Some name => url.Add q "f_name" name
  | None => q
  end.

(** The options struct once every option has been applied, and the URL that
    [Accounts] requests. *)
Definition Accounts_opts (opts : list ListAccountOption) : listAccountsOpts :=
  fold_left (fun o opt => opt o) opts {| accountName := None |}.

Definition Accounts_url (opts : list ListAccountOption) : string :=
  "https://www.aplos.com/hermes/api/v1/accounts?"
  ++ url.Encode (Accounts_query (Accounts_opts opts)).

(** [func (c *Client) Accounts(ctx, opts ...ListAccountOption)]. *)
Definition Client_Accounts (c : Client) (opts : list ListAccountOption)
  : M ((error + list Account) * Client) :=
  perform rc <- ctxhttp_Get c (Accounts_url opts) ;;
  let (resp, c) := rc in
  match resp with
  | inl err => ret (inl (Wrapf "failed to list accounts" err), c)
  | inr body =>
      match json_Decode_listAccountsResponse body with
      | inl err => ret (inl (Wrapf "failed to decode list accounts response" err), c)
      | inr lResp => ret (inr (Data_Accounts (listAccounts_Data lResp)), c)
      end
  end.

Record listTransactionsOpts : Type := mkListTransactionsOpts {
  accountNumber : option Z;
  rangeStart : option Date;
  rangeEnd : option Date
}.

Definition ListTransactionOption : Type := listTransactionsOpts -> listTransactionsOpts.

Definition WithAccountNumber (acctNumber : Z) : ListTransactionOption :=
  fun o => {| accountNumber := Some acctNumber;
              rangeStart := rangeStart o; rangeEnd := rangeEnd o |}.

Definition WithRangeStart (year : Z) (month : time.Month) (day : Z) : ListTransactionOption :=
  fun o => {| accountNumber := accountNumber o;
              rangeStart := Some {| Year := year; Month := month; Day := day |};
              rangeEnd := rangeEnd o |}.

Definition WithRangeEnd (year : Z) (month : time.Month) (day : Z) : ListTransactionOption :=
  fun o => {| accountNumber := accountNumber o;
              rangeStart := rangeStart o;
              rangeEnd := Some {| Year := year; Month := month; Day := day |} |}.

(** The query of [Transactions] (lines 223 to 232): three guarded [q.Add]. *)
Definition Transactions_query (o : listTransactionsOpts) : url.Values :=
  let q : url.Values := [] in
  let q := match accountNumber o with
           | Some n => url.Add q "f_accountnumber" (strconv.Itoa n)
           | None => q
           end in
  let q := match rangeStart o with
           | Some d => url.Add q "f_rangestart" (Date_String d)
           | None => q
           end in
  let q := match rangeEnd o with
           | Some d => url.Add q "f_rangeend" (Date_String d)
           | None => q
           end in
  q.

(** The options struct once every option has been applied (lines 218 to 221). *)
Definition Transactions_opts (opts : list ListTransactionOption) : listTransactionsOpts :=
  fold_left (fun o opt => opt o) opts
    {| accountNumber := None; rangeStart := None; rangeEnd := None |}.

(** The URL that [Transactions] requests. *)
Definition Transactions_url (opts : list ListTransactionOption) : string :=
  "https://www.aplos.com/hermes/api/v1/transactions?"
  ++ url.Encode (Transactions_query (Transactions_opts opts)).

(** [func (c *Client) Transactions(ctx, opts ...ListTransactionOption)]. *)
Definition Client_Transactions (c : Client) (opts : list ListTransactionOption)
  : M ((error + list Transaction) * Client) :=
  perform rc <- ctxhttp_Get c (Transactions_url opts) ;;
  let (resp, c) := rc in
  match resp with
  | inl err => ret (inl (Wrapf "failed to list transactions" err), c)
  | inr body =>
      match json_Decode_listTransactionsResponse body with
      | inl err => ret (inl (Wrapf "failed to decode list transactions response" err), c)
      | inr lResp => ret (inr (Data_Transactions (listTransactions_Data lResp)), c)
      end
  end.

End Package.

(** ** The vocabulary of the specification *)

(** The specification names the operations after what they do: its
    [formatDate] is [Date.String], its [parseDate] is the parsing step of
    [Date.UnmarshalJSON] ([parseDate] above), its [fetchToken] is [ts.Token],
    its [getToken] is the [Token] method of the reusing token source, its
    [loadPrivateKeyFromBytes] is [LoadPrivateKey], and its [getTransaction],
    [listAccounts], [listTransactions] are the methods [Transaction],
    [Accounts], [Transactions] of the client.

    The specification sorts failures into kinds.  The Go code has no error
    types: a failure is told from another by the message that wraps it, one
    message per failure site.  [error_kind] reads the kind off that message. *)
Inductive ErrorKind : Type :=
| NetworkError | DecodeError | CryptoError | KeyError | AuthError | IOError.

Definition error_kind (e : error) : option ErrorKind :=
  match e with
  | Wrapf msg _ =>
      if String.eqb msg "failed to query auth endpoint" then Some NetworkError
      else if String.eqb msg "failed to decode auth response" then Some DecodeError
      else if String.eqb msg "failed to base64 decode encrypted token" then Some DecodeError
      else if String.eqb msg "failed to decrypt token" then Some CryptoError
      else if String.eqb msg "failed to read key file" then Some IOError
      else if String.eqb msg "failed to base64 decode" then Some DecodeError
      else if String.eqb msg "failed to parse key as PKCS8" then Some KeyError
      else if String.eqb msg "failed to get token" then Some AuthError
      else if String.eqb msg "failed to get access token" then Some AuthError
      else if String.eqb msg "failed to unmarshal JSON field as a string" then Some DecodeError
      else if String.eqb msg "failed to parse date" then Some DecodeError
      else None
  | Plainf msg =>
      if String.prefix "key was not an RSA key, was " msg then Some KeyError else None
  | LibError _ => None
  end.

(** A decimal digit, and a string of decimal digits with its value. *)
Definition is_digit (c : ascii) : Prop := 48 <= byte_val c <= 57.

Fixpoint all_digits (s : string) : Prop :=
  match s with
  | EmptyString => True
  | String c s' => is_digit c /\ all_digits s'
  end.

Fixpoint decimal_value_from (x : Z) (s : string) : Z :=
  match s with
  | EmptyString => x
  | String c s' => decimal_value_from (x * 10 + (byte_val c - 48)) s'
  end.

Definition decimal_value (s : string) : Z := decimal_value_from 0 s.

(** [s] is the number [v >= 0] in decimal, zero-padded to at least [w]
    digits and no further. *)
Definition padded_decimal (w : nat) (v : Z) (s : string) : Prop :=
  all_digits s /\ decimal_value s = v /\ (w <= String.length s)%nat
  /\ ((w < String.length s)%nat -> forall c s', s = String c s' -> c <> "0"%char).

(** The same for a signed field as [%0wd] writes it: the minus sign of a
    negative number takes one of the [w] places. *)
Definition signed_padded_decimal (w : nat) (v : Z) (s : string) : Prop :=
  if v <? 0
  then exists s', s = String "-" s' /\ padded_decimal (Nat.pred w) (- v) s'
  else padded_decimal w v s.

(** A real calendar date (proleptic Gregorian, as Go's [time] counts). *)
Definition leap_year (y : Z) : bool :=
  (y mod 4 =? 0) && (negb (y mod 100 =? 0) || (y mod 400 =? 0)).

Definition days_in_month (y m : Z) : Z :=
  if m =? 2 then (if leap_year y then 29 else 28)
  else if (m =? 4) || (m =? 6) || (m =? 9) || (m =? 11) then 30
  else 31.

Definition valid_date (d : Date) : Prop :=
  1 <= Month d <= 12 /\ 1 <= Day d <= days_in_month (Year d) (Month d).

(** The bare form YYYY-MM-DD: four digits, two digits, two digits,
    separated by [-]. *)
Definition date_shaped (s : string) : Prop :=
  exists y1 y2 y3 y4 m1 m2 d1 d2 : ascii,
    s = String y1 (String y2 (String y3 (String y4 (String "-"
          (String m1 (String m2 (String "-" (String d1 (String d2 "")))))))))
    /\ is_digit y1 /\ is_digit y2 /\ is_digit y3 /\ is_digit y4
    /\ is_digit m1 /\ is_digit m2 /\ is_digit d1 /\ is_digit d2.

(** A string of that form that names the calendar date [d]: its fields are
    the year, month and day of [d], and [d] is a real date. *)
Definition YYYY_MM_DD (s : string) (d : Date) : Prop :=
  exists y1 y2 y3 y4 m1 m2 d1 d2 : ascii,
    s = String y1 (String y2 (String y3 (String y4 (String "-"
          (String m1 (String m2 (String "-" (String d1 (String d2 "")))))))))
    /\ is_digit y1 /\ is_digit y2 /\ is_digit y3 /\ is_digit y4
    /\ is_digit m1 /\ is_digit m2 /\ is_digit d1 /\ is_digit d2
    /\ Year d = decimal_value (String y1 (String y2 (String y3 (String y4 ""))))
    /\ Month d = decimal_value (String m1 (String m2 ""))
    /\ Day d = decimal_value (String d1 (String d2 ""))
    /\ valid_date d.

(** [k] decimal digits of [u], most significant first, written in front of
    [buf]: what the two loops of [fmtInteger] produce together. *)
Fixpoint fixed_digits (k : nat) (u : Z) (buf : string) : string :=
  match k with
  | O => buf
  | S k' => fixed_digits k' (u / 10) (String (byte_of (48 + u mod 10)) buf)
  end.

(** The number of decimal digits of [u], counted as the digit loop runs. *)
Fixpoint ndigits (fuel : nat) (u : Z) : nat :=
  match fuel with
  | O => 1
  | S fuel' => if 10 <=? u then S (ndigits fuel' (u / 10)) else 1
  end.

(** The number of digits that [fmtInteger] writes for [u] before padding. *)
Definition width_of (u : Z) : nat := ndigits (fmt.digits_fuel u) u.

(** The request of the authentication handshake for a client identifier. *)
Definition auth_request (clientID : string) : Request :=
  {| req_url := "https://www.aplos.com/hermes/api/v1/auth/" ++ clientID;
     req_authorization := None |}.

(** A data request carrying the token as bearer credential. *)
Definition bearer_request (url : string) (tok : oauth2.Token) : Request :=
  {| req_url := url;
     req_authorization := Some (oauth2.Type_ tok ++ " " ++ oauth2.AccessToken tok) |}.

(** One query parameter [key=value] when the filter field is present. *)
Definition param (key : string) (value : option string) : list string :=
  match value with
  | Some v => [key ++ "=" ++ v]
  | None => []
  end.

(** A string that [url.QueryEscape] leaves as it is. *)
Fixpoint unescaped (s : string) : Prop :=
  match s with
  | EmptyString => True
  | String c s' => url.shouldEscape c = false /\ unescaped s'
  end.

(** [is_digit] as a test: the condition [isDigit] evaluates on one byte. *)
Definition is_digitb (c : ascii) : bool := (48 <=? byte_val c) && (byte_val c <=? 57).

(** ** A simulated vendor *)

(** A closed environment on which the package can be run: one key file, one
    client, and a vendor whose authentication envelope carries the expiry
    [expires] and a ciphertext that decrypts to [plaintext], and whose data
    envelopes carry the status [status]. *)
Module Sim.

Definition second : Z := 1000000000.

Definition auth_url : string := "https://www.aplos.com/hermes/api/v1/auth/client-1".

(** A JSON string literal without escapes: the bytes between the quotes. *)
Fixpoint unquote_body (s : string) : option string :=
  match s with
  | EmptyString => None
  | String c EmptyString => if byte_val c =? 34 then Some EmptyString else None
  | String c s' =>
      if (byte_val c =? 34) || (byte_val c =? 92) || (byte_val c <? 32) then None
      else option_map (String c) (unquote_body s')
  end.

(** The JSON string literal of a string without quotes or escapes. *)
Definition quote (s : string) : string :=
  String (byte_of 34) (s ++ String (byte_of 34) EmptyString).

Definition unquote (data : string) : error + string :=
  match data with
  | String c rest =>
      if byte_val c =? 34
      then match unquote_body rest with
           | Some s => inr s
           | None => inl (LibError "json: invalid string literal")
           end
      else inl (LibError "json: cannot unmarshal into Go value of type string")
  | EmptyString => inl (LibError "unexpected end of JSON input")
  end.

Definition salaries : Account :=
  {| AccountNumber := 42; Account_Name := "Salaries"; Category := "expense";
     Account_AccountGroup := Some {| AccountGroup_ID := 7; AccountGroup_Name := "Staff"; Seq := 1 |};
     IsEnabled := true; Account_Type := "expense"; Activity := "operating" |}.

Definition payday : Transaction :=
  {| ID := 9; Memo := "payroll"; Transaction_Date := mkDate 2020 1 31; IDNumber := 3;
     Created := mkAplosTime 0; Amount := PrimFloat.one; InClosedPeriod := false;
     Lines := [] |}.

Definition env (expires : time.Instant) (plaintext : string) (status : Z) : Env :=
  {| rsa_PrivateKey := string;
     os_ReadFile := fun fp =>
       if String.eqb fp "aplos.key" then inr "a2V5"
       else if String.eqb fp "ec.key" then inr "ZWM="
       else if String.eqb fp "garbled.key" then inr "%%%"
       else inl (LibError "open: no such file or directory");
     base64_DecodeString := fun s =>
       if String.eqb s "a2V5" then inr "key"
       else if String.eqb s "ZWM=" then inr "ec"
       else if String.eqb s "Y2lwaGVy" then inr "cipher"
       else inl (LibError "illegal base64 data at input byte 0");
     x509_ParsePKCS8PrivateKey := fun dat =>
       if String.eqb dat "key" then inr (Key_rsa "rsa-key")
       else if String.eqb dat "ec" then inr Key_ecdsa
       else inl (LibError "x509: failed to parse private key");
     rsa_DecryptPKCS1v15 := fun k ct =>
       if String.eqb k "rsa-key" && String.eqb ct "cipher" then inr plaintext
       else inl (LibError "crypto/rsa: decryption error");
     http_RoundTrip := fun w req =>
       (if String.eqb (req_url req) auth_url then inr "auth-envelope"
        else if String.prefix "https://www.aplos.com/hermes/api/v1/" (req_url req)
             then inr "data-envelope"
             else inl (LibError "dial tcp: no such host"),
        clock w + second);
     json_Unmarshal_string := unquote;
     json_Decode_authResponse := fun body =>
       if String.eqb body "auth-envelope"
       then inr {| auth_Version := "v1"; auth_Status := 200;
                   auth_Data := {| Expires := mkAplosTime expires; Token := "Y2lwaGVy" |} |}
       else inl (LibError "invalid character");
     json_Decode_getTransactionResponse := fun body =>
       if String.eqb body "data-envelope"
       then inr {| getTransaction_Version := "v1"; getTransaction_Status := status;
                   getTransaction_Data := {| Data_Transaction := payday |} |}
       else inl (LibError "invalid character");
     json_Decode_listAccountsResponse := fun body =>
       if String.eqb body "data-envelope"
       then inr {| listAccounts_Version := "v1"; listAccounts_Status := status;
                   listAccounts_Data := {| Data_Accounts := [salaries] |} |}
       else inl (LibError "invalid character");
     json_Decode_listTransactionsResponse := fun body =>
       if String.eqb body "data-envelope"
       then inr {| listTransactions_Version := "v1"; listTransactions_Status := status;
                   listTransactions_Data := {| Data_Transactions := [payday] |} |}
       else inl (LibError "invalid character") |}.

(** The world at second 1000 of the clock, nothing sent yet. *)
Definition w0 : World := {| clock := 1000 * second; sent := [] |}.

(** The token source of client [client-1]. *)
Definition source (E : Env) (k : @rsa_PrivateKey E) : @ts E :=
  {| clientID := "client-1"; key := k |}.

(** Three vendors: one that issues the token [fresh], good until second
    5000; one whose envelope says the token expired at second 500, before the
    clock of [w0]; one whose ciphertext decrypts to the empty string. *)
Definition vendor : Env := env (5000 * second) "fresh" 200.
Definition stale : Env := env (500 * second) "secret" 200.
Definition blank : Env := env (5000 * second) "" 200.

(** Held tokens: one that expires 5 seconds after the clock of [w0], one
    with the zero expiry, one good for an hour (3600 seconds after [w0]). *)
Definition soon : oauth2.Token :=
  {| oauth2.AccessToken := "secret"; oauth2.TokenType := "Bearer";
     oauth2.Expiry := 1005 * second |}.

Definition unset : oauth2.Token :=
  {| oauth2.AccessToken := "secret"; oauth2.TokenType := "Bearer"; oauth2.Expiry := 0 |}.

Definition hour : oauth2.Token :=
  {| oauth2.AccessToken := "secret"; oauth2.TokenType := "Bearer";
     oauth2.Expiry := 4600 * second |}.

(** A held token good for an hour whose access token is empty. *)
Definition hollow : oauth2.Token :=
  {| oauth2.AccessToken := ""; oauth2.TokenType := "Bearer";
     oauth2.Expiry := 4600 * second |}.

(** A vendor that answers every data request with status 500. *)
Definition failing : Env := env (5000 * second) "fresh" 500.

(** A client of [client-1] holding the token [held]. *)
Definition client (E : Env) (k : @rsa_PrivateKey E) (held : oauth2.Token) : @Client E :=
  {| http := {| rts_t := Some held; rts_new := source E k |} |}.

(** The three filters of the specification's example. *)
Definition january : list ListTransactionOption :=
  [WithAccountNumber 42; WithRangeStart 2020 1 1; WithRangeEnd 2020 1 31].

(** A provider of [client-1] holding the token [held]. *)
Definition holding (E : Env) (k : @rsa_PrivateKey E) (held : oauth2.Token)
  : @reuseTokenSource E :=
  {| rts_t := Some held; rts_new := source E k |}.

End Sim.

(** ** The example command [salary] *)

(** [func sumLinesByAccount(lines []aplos.TransactionLine, acctNumber int)]
    of the example command: the amounts of the lines booked on the account
    are added up from the left, in [float64] arithmetic starting from
    [+0], and [found] is raised at the first such line. *)
Definition sumLinesByAccount (lines : list TransactionLine) (acctNumber : Z)
  : float * bool :=
  fold_left
    (fun (acc : float * bool) (l : TransactionLine) =>
       let (total, found) := acc in
       if AccountNumber (TransactionLine_Account l) =? acctNumber
       then (PrimFloat.add total (TransactionLine_Amount l), true)
       else (total, found))
    lines (PrimFloat.zero, false).

(** ** Further vocabulary *)

(** The lines booked on an account. *)
Definition on_account (acctNumber : Z) (l : TransactionLine) : bool :=
  AccountNumber (TransactionLine_Account l) =? acctNumber.

(** Reading a decimal number back: the leading digits of [s] and what
    follows them; then the same with an optional minus sign in front. *)
Fixpoint read_digits (x : Z) (s : string) : Z * string :=
  match s with
  | EmptyString => (x, EmptyString)
  | String c s' =>
      if is_digitb c then read_digits (x * 10 + (byte_val c - 48)) s' else (x, s)
  end.

Definition read_signed (s : string) : Z * string :=
  match s with
  | String c s' =>
      if byte_val c =? 45
      then let (v, rest) := read_digits 0 s' in (- v, rest)
      else read_digits 0 s
  | EmptyString => (0, EmptyString)
  end.

(** Reading a date back from three signed fields separated by [-]. *)
Definition read_date (s : string) : option Date :=
  let (y, s1) := read_signed s in
  match s1 with
  | String _ s1' =>
      let (m, s2) := read_signed s1' in
      match s2 with
      | String _ s2' => let (d, _) := read_signed s2' in Some (mkDate y m d)
      | EmptyString => None
      end
  | EmptyString => None
  end.

(** A string that does not go on with a digit. *)
Definition stops (s : string) : Prop :=
  match s with
  | EmptyString => True
  | String c _ => is_digitb c = false
  end.

(** The bytes that [url.QueryEscape] can write: the unreserved ones it
    keeps, [+] for a space, and [%] with two hexadecimal digits. *)
Definition query_byte (c : ascii) : Prop :=
  url.shouldEscape c = false \/ c = "+"%char \/ c = "%"%char.

Fixpoint query_bytes (s : string) : Prop :=
  match s with
  | EmptyString => True
  | String c s' => query_byte c /\ query_bytes s'
  end.

(** The bytes of a string. *)
Fixpoint occurs (c : ascii) (s : string) : Prop :=
  match s with
  | EmptyString => False
  | String c' s' => c = c' \/ occurs c s'
  end.

(** The options that the package exports for [Transactions], as data: a
    caller outside the package can build a [ListTransactionOption] that sets
    a field only through these three. *)
Inductive TransactionFilter : Type :=
| ByAccountNumber (acctNumber : Z)
| ByRangeStart (year : Z) (month : time.Month) (day : Z)
| ByRangeEnd (year : Z) (month : time.Month) (day : Z).

Definition option_of (f : TransactionFilter) : ListTransactionOption :=
  match f with
  | ByAccountNumber n => WithAccountNumber n
  | ByRangeStart y m d => WithRangeStart y m d
  | ByRangeEnd y m d => WithRangeEnd y m d
  end.

(** The value of the last option given for each field, if there is one. *)
Fixpoint last_account (fs : list TransactionFilter) : option Z :=
  match fs with
  | [] => None
  | f :: fs' =>
      match last_account fs', f with
      | Some n, _ => Some n
      | None, ByAccountNumber n => Some n
      | None, _ => None
      end
  end.

Fixpoint last_start (fs : list TransactionFilter) : option Date :=
  match fs with
  | [] => None
  | f :: fs' =>
      match last_start fs', f with
      | Some d, _ => Some d
      | None, ByRangeStart y m d => Some (mkDate y m d)
      | None, _ => None
      end
  end.

Fixpoint last_end (fs : list TransactionFilter) : option Date :=
  match fs with
  | [] => None
  | f :: fs' =>
      match last_end fs', f with
      | Some d, _ => Some d
      | None, ByRangeEnd y m d => Some (mkDate y m d)
      | None, _ => None
      end
  end.

(** What a client built by [New] for a client identifier and a key keeps
    true: its token source still has these credentials, and it holds a token
    of type Bearer. *)
Definition client_of {E : Env} (id : string) (pk : rsa_PrivateKey) (c : Client) : Prop :=
  rts_new (http c) = {| clientID := id; key := pk |}
  /\ exists tok, rts_t (http c) = Some tok /\ oauth2.TokenType tok = "Bearer".

(** The error of a result, if it is one. *)
Definition failure {A : Type} (r : error + A) : option error :=
  match r with
  | inl err => Some err
  | inr _ => None
  end.

(** A data request as it goes on the wire for a token of type Bearer. *)
Definition data_request (url : string) (tok : oauth2.Token) : Request :=
  {| req_url := url;
     req_authorization := Some ("Bearer " ++ oauth2.AccessToken tok) |}.

(** One call of one of the three operations of a client [c] in a world [w]:
    the URL it asks for, the message under which it wraps a failure of the
    request, its error if it fails, and the client and the world after it. *)
Inductive operation {E : Env} (c : Client) (w : World)
  : string -> string -> option error -> Client -> World -> Prop :=
| call_Transaction (id : Z) :
    operation c w (Transaction_url id) "failed to list accounts"
      (failure (fst (fst (Client_Transaction c id w))))
      (snd (fst (Client_Transaction c id w))) (snd (Client_Transaction c id w))
| call_Accounts (opts : list ListAccountOption) :
    operation c w (Accounts_url opts) "failed to list accounts"
      (failure (fst (fst (Client_Accounts c opts w))))
      (snd (fst (Client_Accounts c opts w))) (snd (Client_Accounts c opts w))
| call_Transactions (opts : list ListTransactionOption) :
    operation c w (Transactions_url opts) "failed to list transactions"
      (failure (fst (fst (Client_Transactions c opts w))))
      (snd (fst (Client_Transactions c opts w))) (snd (Client_Transactions c opts w)).

(** * Proofs *)

(** ** Bytes and digits *)

Lemma byte_val_byte_of (z : Z) : 0 <= z < 256 -> byte_val (byte_of z) = z.
Proof.
  intros H. unfold byte_val, byte_of.
  rewrite N_ascii_embedding by lia. lia.
Qed.

Lemma byte_of_byte_val (c : ascii) : byte_of (byte_val c) = c.
Proof.
  unfold byte_val, byte_of. rewrite N2Z.id. apply ascii_N_embedding.
Qed.

Lemma byte_val_inj (a b : ascii) : byte_val a = byte_val b -> a = b.
Proof.
  intros H. rewrite <- (byte_of_byte_val a), <- (byte_of_byte_val b). now rewrite H.
Qed.

Lemma byte_val_range (c : ascii) : 0 <= byte_val c < 256.
Proof.
  unfold byte_val. pose proof (N_ascii_bounded c). lia.
Qed.

Lemma is_digit_byte_of (d : Z) : 0 <= d < 10 -> is_digit (byte_of (48 + d)).
Proof.
  intros H. unfold is_digit. rewrite byte_val_byte_of; lia.
Qed.

(** ** The digit loops of [fmt] *)

Lemma div10_lt_pow2 (fuel : nat) (u : Z) :
  0 <= u < 2 ^ Z.of_nat (S fuel) -> 0 <= u / 10 < 2 ^ Z.of_nat fuel.
Proof.
  intros [H0 H1]. rewrite Nat2Z.inj_succ, Z.pow_succ_r in H1 by lia.
  split; [apply Z.div_pos; lia|].
  apply Z.div_lt_upper_bound; lia.
Qed.

Lemma digits_fixed (fuel : nat) : forall (u : Z) (buf : string),
  0 <= u < 2 ^ Z.of_nat fuel ->
  fmt.digits fuel u buf = fixed_digits (ndigits fuel u) u buf.
Proof.
  induction fuel as [|fuel IH]; intros u buf H.
  - simpl in *. assert (u = 0) by lia. subst u. reflexivity.
  - cbn [fmt.digits ndigits]. destruct (10 <=? u) eqn:E.
    + cbn [fixed_digits]. rewrite IH by (apply div10_lt_pow2; exact H).
      f_equal. f_equal. f_equal. rewrite (Z.mod_eq u 10) by lia. lia.
    + apply Z.leb_gt in E. cbn [fixed_digits]. rewrite Z.mod_small by lia. reflexivity.
Qed.

Lemma digits_fuel_enough (u : Z) : 0 <= u -> 0 <= u < 2 ^ Z.of_nat (fmt.digits_fuel u).
Proof.
  intros H. split; [exact H|]. unfold fmt.digits_fuel.
  rewrite Nat2Z.inj_succ, Z2Nat.id by apply Z.log2_nonneg.
  destruct (Z.eq_dec u 0) as [->|Hn]; [reflexivity|].
  apply Z.log2_spec. lia.
Qed.

Lemma ndigits_pos (fuel : nat) (u : Z) : (1 <= ndigits fuel u)%nat.
Proof.
  destruct fuel; simpl; [lia|]. destruct (10 <=? u); lia.
Qed.

Lemma ndigits_upper (fuel : nat) : forall u,
  0 <= u < 2 ^ Z.of_nat fuel -> u < 10 ^ Z.of_nat (ndigits fuel u).
Proof.
  induction fuel as [|fuel IH]; intros u H.
  - simpl in *. lia.
  - cbn [ndigits]. destruct (10 <=? u) eqn:E.
    + rewrite Nat2Z.inj_succ, Z.pow_succ_r by lia.
      specialize (IH (u / 10) (div10_lt_pow2 _ _ H)).
      pose proof (Z.div_mod u 10 ltac:(lia)). pose proof (Z.mod_pos_bound u 10 ltac:(lia)).
      lia.
    + apply Z.leb_gt in E. simpl. lia.
Qed.

Lemma ndigits_lower (fuel : nat) : forall u,
  0 <= u -> (1 < ndigits fuel u)%nat -> 10 ^ Z.of_nat (Nat.pred (ndigits fuel u)) <= u.
Proof.
  induction fuel as [|fuel IH]; intros u H0 H.
  - simpl in H. lia.
  - cbn [ndigits] in *. destruct (10 <=? u) eqn:E; [|lia].
    apply Z.leb_le in E. cbn [Nat.pred].
    destruct (Nat.eq_dec (ndigits fuel (u / 10)) 1) as [E1|E1].
    + rewrite E1. simpl. lia.
    + pose proof (ndigits_pos fuel (u / 10)).
      assert (Hr : 10 ^ Z.of_nat (Nat.pred (ndigits fuel (u / 10))) <= u / 10)
        by (apply IH; [apply Z.div_pos; lia | lia]).
      replace (Z.of_nat (ndigits fuel (u / 10)))
        with (Z.succ (Z.of_nat (Nat.pred (ndigits fuel (u / 10))))) by lia.
      rewrite Z.pow_succ_r by lia.
      pose proof (Z.div_mod u 10 ltac:(lia)). pose proof (Z.mod_pos_bound u 10 ltac:(lia)).
      lia.
Qed.

(** ** Fixed-width decimal strings *)

Lemma fixed_digits_length (k : nat) : forall u buf,
  String.length (fixed_digits k u buf) = (k + String.length buf)%nat.
Proof.
  induction k as [|k IH]; intros u buf; [reflexivity|].
  cbn [fixed_digits]. rewrite IH. simpl. lia.
Qed.

Lemma fixed_digits_front (k : nat) : forall u buf,
  fixed_digits (S k) u buf
  = String (byte_of (48 + (u / 10 ^ Z.of_nat k) mod 10)) (fixed_digits k u buf).
Proof.
  induction k as [|k IH]; intros u buf.
  - cbn [fixed_digits]. simpl. now rewrite Z.div_1_r.
  - change (fixed_digits (S (S k)) u buf)
      with (fixed_digits (S k) (u / 10) (String (byte_of (48 + u mod 10)) buf)).
    rewrite IH. cbn [fixed_digits].
    rewrite Nat2Z.inj_succ, Z.pow_succ_r by lia.
    rewrite Z.div_div by (try apply Z.pow_pos_nonneg; lia). reflexivity.
Qed.

Lemma fixed_digits_all_digits (k : nat) : forall u buf,
  all_digits buf -> all_digits (fixed_digits k u buf).
Proof.
  induction k as [|k IH]; intros u buf H; [exact H|].
  cbn [fixed_digits]. apply IH. split; [|exact H].
  apply is_digit_byte_of. apply Z.mod_pos_bound. lia.
Qed.

Lemma fixed_digits_value (k : nat) : forall u buf x,
  decimal_value_from x (fixed_digits k u buf)
  = decimal_value_from (x * 10 ^ Z.of_nat k + u mod 10 ^ Z.of_nat k) buf.
Proof.
  induction k as [|k IH]; intros u buf x.
  - simpl. rewrite Z.mod_1_r. f_equal. lia.
  - cbn [fixed_digits]. rewrite IH. cbn [decimal_value_from].
    rewrite byte_val_byte_of
      by (pose proof (Z.mod_pos_bound u 10 ltac:(lia)); lia).
    f_equal. rewrite Nat2Z.inj_succ, Z.pow_succ_r by lia.
    rewrite (Z.rem_mul_r u 10 (10 ^ Z.of_nat k))
      by (try apply Z.pow_nonzero; try apply Z.pow_pos_nonneg; lia).
    lia.
Qed.

Lemma zeros_shift (n : nat) (buf : string) :
  fmt.zeros n (String "0" buf) = String "0" (fmt.zeros n buf).
Proof.
  induction n as [|n IH]; [reflexivity|]. simpl. now rewrite IH.
Qed.

Lemma zeros_fixed_zero (n : nat) : forall buf, fmt.zeros n buf = fixed_digits n 0 buf.
Proof.
  induction n as [|n IH]; intros buf; [reflexivity|].
  cbn [fixed_digits fmt.zeros]. rewrite <- zeros_shift. rewrite IH. reflexivity.
Qed.

Lemma zeros_fixed (n k : nat) : forall u buf,
  0 <= u < 10 ^ Z.of_nat k ->
  fmt.zeros n (fixed_digits k u buf) = fixed_digits (n + k) u buf.
Proof.
  induction k as [|k IH]; intros u buf H.
  - simpl in H. assert (u = 0) by lia. subst u.
    rewrite Nat.add_0_r. apply zeros_fixed_zero.
  - rewrite Nat.add_succ_r. cbn [fixed_digits]. apply IH.
    rewrite Nat2Z.inj_succ, Z.pow_succ_r in H by lia.
    split; [apply Z.div_pos; lia|]. apply Z.div_lt_upper_bound; lia.
Qed.

Lemma fmt0d_nonneg (w : nat) (v : Z) :
  0 <= v -> fmt.fmt0d w v = fixed_digits (Nat.max w (width_of v)) v "".
Proof.
  intros H. unfold fmt.fmt0d.
  assert (E : (v <? 0) = false) by (apply Z.ltb_ge; lia). rewrite E.
  rewrite Z.abs_eq by lia.
  rewrite digits_fixed by (apply digits_fuel_enough; lia).
  fold (width_of v). rewrite fixed_digits_length. simpl String.length.
  rewrite zeros_fixed
    by (split; [lia | apply ndigits_upper, digits_fuel_enough; lia]).
  f_equal. lia.
Qed.

Lemma fmt0d_neg (w : nat) (v : Z) :
  v < 0 ->
  fmt.fmt0d w v = String "-" (fixed_digits (Nat.max (Nat.pred w) (width_of (- v))) (- v) "").
Proof.
  intros H. unfold fmt.fmt0d.
  assert (E : (v <? 0) = true) by (apply Z.ltb_lt; lia). rewrite E.
  rewrite Z.abs_neq by lia.
  rewrite digits_fixed by (apply digits_fuel_enough; lia).
  fold (width_of (- v)). rewrite fixed_digits_length. simpl String.length.
  rewrite zeros_fixed
    by (split; [lia | apply ndigits_upper, digits_fuel_enough; lia]).
  f_equal. f_equal. lia.
Qed.

Lemma Itoa_nonneg (v : Z) : 0 <= v -> strconv.Itoa v = fixed_digits (width_of v) v "".
Proof.
  intros H. unfold strconv.Itoa.
  assert (E : (v <? 0) = false) by (apply Z.ltb_ge; lia). rewrite E.
  rewrite Z.abs_eq by lia. apply digits_fixed, digits_fuel_enough. lia.
Qed.

Lemma Itoa_neg (v : Z) :
  v < 0 -> strconv.Itoa v = String "-" (fixed_digits (width_of (- v)) (- v) "").
Proof.
  intros H. unfold strconv.Itoa.
  assert (E : (v <? 0) = true) by (apply Z.ltb_lt; lia). rewrite E.
  rewrite Z.abs_neq by lia. f_equal. apply digits_fixed, digits_fuel_enough. lia.
Qed.

Lemma width_of_bounds (v : Z) :
  0 <= v ->
  (1 <= width_of v)%nat /\ v < 10 ^ Z.of_nat (width_of v)
  /\ ((1 < width_of v)%nat -> 10 ^ Z.of_nat (Nat.pred (width_of v)) <= v).
Proof.
  intros H. unfold width_of. repeat split.
  - apply ndigits_pos.
  - apply ndigits_upper, digits_fuel_enough, H.
  - apply ndigits_lower, H.
Qed.

(** A non-negative number padded to [w >= 1] places is a padded decimal. *)
Lemma fixed_digits_padded (w : nat) (v : Z) :
  (1 <= w)%nat -> 0 <= v ->
  padded_decimal w v (fixed_digits (Nat.max w (width_of v)) v "").
Proof.
  intros Hw Hv. destruct (width_of_bounds v Hv) as (W1 & W2 & W3).
  set (k := Nat.max w (width_of v)).
  assert (Hk : v < 10 ^ Z.of_nat k).
  { eapply Z.lt_le_trans; [exact W2|]. apply Z.pow_le_mono_r; lia. }
  repeat split.
  - apply fixed_digits_all_digits. exact I.
  - unfold decimal_value. rewrite fixed_digits_value. simpl decimal_value_from.
    rewrite Z.mod_small by lia. lia.
  - rewrite fixed_digits_length. simpl. lia.
  - rewrite fixed_digits_length. simpl String.length. intros Hlt c s' E.
    assert (Ek : k = width_of v) by lia.
    assert (H1 : (1 < width_of v)%nat) by lia.
    specialize (W3 H1).
    destruct k as [|k']; [lia|].
    rewrite fixed_digits_front in E.
    assert (Hp : 0 < 10 ^ Z.of_nat k') by (apply Z.pow_pos_nonneg; lia).
    assert (Hq : 1 <= v / 10 ^ Z.of_nat k' < 10).
    { rewrite <- Ek in W3. cbn [Nat.pred] in W3. split.
      - apply Z.div_le_lower_bound; lia.
      - apply Z.div_lt_upper_bound; [lia|].
        rewrite Nat2Z.inj_succ, Z.pow_succ_r in Hk by lia. lia. }
    rewrite Z.mod_small in E by lia.
    remember (48 + v / 10 ^ Z.of_nat k') as z eqn:Ez.
    injection E as Ec _. subst c.
    intros Habs. apply (f_equal byte_val) in Habs.
    rewrite byte_val_byte_of in Habs by lia.
    change (byte_val "0"%char) with 48 in Habs. lia.
Qed.

Lemma fmt0d_signed_padded (w : nat) (v : Z) :
  (2 <= w)%nat -> signed_padded_decimal w v (fmt.fmt0d w v).
Proof.
  intros Hw. unfold signed_padded_decimal. destruct (v <? 0) eqn:E.
  - apply Z.ltb_lt in E. rewrite fmt0d_neg by lia.
    eexists; split; [reflexivity|]. apply fixed_digits_padded; lia.
  - apply Z.ltb_ge in E. rewrite fmt0d_nonneg by lia.
    apply fixed_digits_padded; lia.
Qed.

(** ** The field parsers of [time] *)

Lemma is_digitb_spec (c : ascii) : is_digitb c = true <-> is_digit c.
Proof.
  unfold is_digitb, is_digit. rewrite andb_true_iff, !Z.leb_le. tauto.
Qed.

Lemma is_digitb_false (c : ascii) : is_digitb c = false <-> ~ is_digit c.
Proof.
  rewrite <- is_digitb_spec. destruct (is_digitb c); split; congruence.
Qed.

Lemma isDigit_0 (c : ascii) (s : string) : time.isDigit (String c s) 0 = is_digitb c.
Proof. reflexivity. Qed.

Lemma isDigit_1 (c0 c1 : ascii) (s : string) :
  time.isDigit (String c0 (String c1 s)) 1 = is_digitb c1.
Proof. reflexivity. Qed.

Lemma leadingInt_from_digit (x : Z) (c : ascii) (s : string) :
  is_digit c -> 0 <= x <= 99999 ->
  time.leadingInt_from x (String c s) = time.leadingInt_from (x * 10 + (byte_val c - 48)) s.
Proof.
  intros Hc Hx. unfold is_digit in Hc. cbn [time.leadingInt_from].
  replace (byte_val c <? 48) with false by (symmetry; apply Z.ltb_ge; lia).
  replace (57 <? byte_val c) with false by (symmetry; apply Z.ltb_ge; lia).
  cbn [orb].
  change (2 ^ 63 / 10) with 922337203685477580.
  change (2 ^ 63) with 9223372036854775808.
  replace (922337203685477580 <? x) with false by (symmetry; apply Z.ltb_ge; lia).
  replace (9223372036854775808 <? x * 10 + byte_val c - 48) with false
    by (symmetry; apply Z.ltb_ge; lia).
  f_equal. lia.
Qed.

Lemma leadingInt_from_stop (x : Z) (c : ascii) (s : string) :
  ~ is_digit c -> time.leadingInt_from x (String c s) = Some (x, String c s).
Proof.
  intros Hc. unfold is_digit in Hc. cbn [time.leadingInt_from].
  destruct (byte_val c <? 48) eqn:E1; [reflexivity|].
  destruct (57 <? byte_val c) eqn:E2; [reflexivity|].
  apply Z.ltb_ge in E1, E2. lia.
Qed.

Lemma digit_value_range (c : ascii) : is_digit c -> 0 <= byte_val c - 48 <= 9.
Proof. unfold is_digit. lia. Qed.

(** The year field: four bytes, the first already known to be a digit. *)
Lemma atoi_year (c1 c2 c3 c4 : ascii) :
  is_digit c1 ->
  time.atoi (String c1 (String c2 (String c3 (String c4 ""))))
  = if is_digitb c2 && is_digitb c3 && is_digitb c4
    then Some (decimal_value (String c1 (String c2 (String c3 (String c4 "")))))
    else None.
Proof.
  intros H1. pose proof (digit_value_range _ H1) as R1.
  unfold time.atoi.
  replace (byte_val c1 =? 45) with false by (symmetry; apply Z.eqb_neq; unfold is_digit in H1; lia).
  replace (byte_val c1 =? 43) with false by (symmetry; apply Z.eqb_neq; unfold is_digit in H1; lia).
  cbn [orb]. unfold time.leadingInt.
  rewrite leadingInt_from_digit by (auto; lia).
  destruct (is_digitb c2) eqn:E2; cbn [andb];
    [apply is_digitb_spec in E2 | apply is_digitb_false in E2;
       now rewrite leadingInt_from_stop by exact E2].
  pose proof (digit_value_range _ E2) as R2.
  rewrite leadingInt_from_digit by (auto; lia).
  destruct (is_digitb c3) eqn:E3; cbn [andb];
    [apply is_digitb_spec in E3 | apply is_digitb_false in E3;
       now rewrite leadingInt_from_stop by exact E3].
  pose proof (digit_value_range _ E3) as R3.
  rewrite leadingInt_from_digit by (auto; lia).
  destruct (is_digitb c4) eqn:E4; cbn [andb];
    [apply is_digitb_spec in E4 | apply is_digitb_false in E4;
       now rewrite leadingInt_from_stop by exact E4].
  pose proof (digit_value_range _ E4) as R4.
  rewrite leadingInt_from_digit by (auto; lia).
  reflexivity.
Qed.

Lemma getnum_fixed (s : string) :
  time.getnum s true
  = match s with
    | String a (String b rest) =>
        if is_digitb a && is_digitb b
        then Some (decimal_value (String a (String b "")), rest)
        else None
    | _ => None
    end.
Proof.
  unfold time.getnum. destruct s as [|a [|b rest]]; try reflexivity.
  - rewrite isDigit_0. destruct (is_digitb a); reflexivity.
  - rewrite isDigit_0, isDigit_1.
    destruct (is_digitb a); [|reflexivity].
    destruct (is_digitb b); [|reflexivity].
    cbn [negb andb]. unfold decimal_value. cbn [decimal_value_from].
    do 2 f_equal.
Qed.

Lemma skip_dash_spec (s rest : string) :
  time.skip_dash s = Some rest <-> s = String "-" rest.
Proof.
  unfold time.skip_dash. split.
  - destruct s as [|c s']; [discriminate|].
    destruct (byte_val c =? 45) eqn:E; [|discriminate].
    intros H. injection H as ->. f_equal.
    apply byte_val_inj. apply Z.eqb_eq in E. exact E.
  - intros ->. reflexivity.
Qed.

Lemma substring_all (s : string) : String.substring 0 (String.length s) s = s.
Proof.
  induction s as [|c s IH]; [reflexivity|]. simpl. now rewrite IH.
Qed.

(** The calendar test of [time] agrees with the calendar of the
    specification. *)
Lemma daysIn_days_in_month (m y : Z) :
  1 <= m <= 12 -> time.daysIn m y = days_in_month y m.
Proof.
  intros H. unfold time.daysIn, days_in_month, time.February.
  change (time.isLeap y) with (leap_year y).
  assert (m = 1 \/ m = 2 \/ m = 3 \/ m = 4 \/ m = 5 \/ m = 6 \/ m = 7 \/ m = 8
          \/ m = 9 \/ m = 10 \/ m = 11 \/ m = 12) as C by lia.
  repeat (destruct C as [-> | C]); try subst m;
    cbn; try reflexivity; destruct (leap_year y); reflexivity.
Qed.

(** ** [time.Parse] on the date layout *)

Lemma Parse_date_short (s : string) :
  (String.length s < 4)%nat -> exists e, time.Parse_date s = inl e.
Proof.
  intros H. unfold time.Parse_date.
  apply Nat.ltb_lt in H. rewrite H. cbn [orb]. eexists. reflexivity.
Qed.

(** After the first four bytes, [Parse] goes on with the rest of the value. *)
Lemma Parse_date_split (c1 c2 c3 c4 : ascii) (rest : string) :
  let value := String c1 (String c2 (String c3 (String c4 rest))) in
  String.substring 0 4 value = String c1 (String c2 (String c3 (String c4 "")))
  /\ String.substring 4 (String.length value - 4) value = rest
  /\ Nat.ltb (String.length value) 4 = false
  /\ time.isDigit value 0 = is_digitb c1.
Proof.
  cbn zeta. split; [|split; [|split]]; try reflexivity.
  - simpl. destruct rest; reflexivity.
  - simpl. rewrite ?Nat.sub_0_r. apply substring_all.
Qed.

(** A date in the form [YYYY-MM-DD] parses to the date it names. *)
Lemma Parse_date_complete (s : string) (d : Date) :
  YYYY_MM_DD s d -> time.Parse_date s = inr (time.mkTime (Year d) (Month d) (Day d)).
Proof.
  intros (y1 & y2 & y3 & y4 & m1 & m2 & d1 & d2 & -> & Hy1 & Hy2 & Hy3 & Hy4
          & Hm1 & Hm2 & Hd1 & Hd2 & EY & EM & ED & [HM HD]).
  unfold time.Parse_date.
  destruct (Parse_date_split y1 y2 y3 y4
              (String "-" (String m1 (String m2 (String "-" (String d1 (String d2 "")))))))
    as (-> & -> & -> & ->).
  apply is_digitb_spec in Hy1 as By1. rewrite By1. cbn [orb negb].
  rewrite atoi_year by exact Hy1.
  apply is_digitb_spec in Hy2, Hy3, Hy4, Hm1, Hm2, Hd1, Hd2.
  rewrite Hy2, Hy3, Hy4. cbn [andb]. rewrite <- EY.
  cbn [time.skip_dash]. change (byte_val "-" =? 45) with true. cbv iota.
  rewrite getnum_fixed, Hm1, Hm2. cbn [andb]. rewrite <- EM.
  replace (Month d <=? 0) with false by (symmetry; apply Z.leb_gt; lia).
  replace (12 <? Month d) with false by (symmetry; apply Z.ltb_ge; lia).
  cbn [orb time.skip_dash]. change (byte_val "-" =? 45) with true. cbv iota.
  rewrite getnum_fixed, Hd1, Hd2. cbn [andb]. rewrite <- ED.
  cbn [String.length Nat.eqb negb].
  rewrite daysIn_days_in_month by lia.
  replace (Day d <? 1) with false by (symmetry; apply Z.ltb_ge; lia).
  replace (days_in_month (Year d) (Month d) <? Day d) with false
    by (symmetry; apply Z.ltb_ge; lia).
  reflexivity.
Qed.

(** Whatever parses is a date in the form [YYYY-MM-DD]. *)
Lemma Parse_date_sound (s : string) (t : time.Time) :
  time.Parse_date s = inr t ->
  YYYY_MM_DD s (mkDate (time.t_year t) (time.t_month t) (time.t_day t)).
Proof.
  destruct s as [|y1 [|y2 [|y3 [|y4 rest]]]];
    try (intros H; exfalso;
         match type of H with
         | time.Parse_date ?v = _ =>
             destruct (Parse_date_short v) as [e He]; [simpl; lia | congruence]
         end).
  unfold time.Parse_date.
  destruct (Parse_date_split y1 y2 y3 y4 rest) as (-> & -> & -> & ->).
  cbn [orb]. destruct (is_digitb y1) eqn:By1; [|discriminate]. cbn [negb].
  apply is_digitb_spec in By1 as Hy1. rewrite atoi_year by exact Hy1.
  destruct (is_digitb y2) eqn:By2; [|discriminate].
  destruct (is_digitb y3) eqn:By3; [|discriminate].
  destruct (is_digitb y4) eqn:By4; [|discriminate]. cbn [andb].
  destruct (time.skip_dash rest) as [r1|] eqn:S1; [|discriminate].
  apply skip_dash_spec in S1. subst rest.
  rewrite getnum_fixed. destruct r1 as [|m1 [|m2 r2]]; try discriminate.
  destruct (is_digitb m1) eqn:Bm1; [|discriminate].
  destruct (is_digitb m2) eqn:Bm2; [|discriminate]. cbn [andb].
  destruct ((decimal_value (String m1 (String m2 "")) <=? 0)
            || (12 <? decimal_value (String m1 (String m2 "")))) eqn:RM; [discriminate|].
  destruct (time.skip_dash r2) as [r3|] eqn:S2; [|discriminate].
  apply skip_dash_spec in S2. subst r2.
  rewrite getnum_fixed. destruct r3 as [|d1 [|d2 r4]]; try discriminate.
  destruct (is_digitb d1) eqn:Bd1; [|discriminate].
  destruct (is_digitb d2) eqn:Bd2; [|discriminate]. cbn [andb].
  destruct r4 as [|c r5]; [|discriminate]. cbn [String.length Nat.eqb negb].
  match goal with
  | |- (if ?b then _ else _) = _ -> _ => destruct b eqn:RD; [discriminate|]
  end.
  intros H. injection H as <-. cbn [time.t_year time.t_month time.t_day].
  apply orb_false_iff in RM as [RM1 RM2]. apply Z.leb_gt in RM1. apply Z.ltb_ge in RM2.
  apply orb_false_iff in RD as [RD1 RD2]. apply Z.ltb_ge in RD1. apply Z.ltb_ge in RD2.
  rewrite daysIn_days_in_month in RD2 by lia.
  exists y1, y2, y3, y4, m1, m2, d1, d2.
  rewrite is_digitb_spec in By2, By3, By4, Bm1, Bm2, Bd1, Bd2.
  unfold is_digit in *.
  repeat split; auto; cbn [Year Month Day]; lia.
Qed.

Lemma decimal_value_from_nonneg (s : string) : forall x,
  all_digits s -> 0 <= x -> 0 <= decimal_value_from x s.
Proof.
  induction s as [|c s IH]; intros x H Hx; [exact Hx|].
  destruct H as [Hc Hs]. cbn [decimal_value_from]. apply IH; [exact Hs|].
  unfold is_digit in Hc. lia.
Qed.

Lemma padded_decimal_nonneg (w : nat) (v : Z) (s : string) : padded_decimal w v s -> 0 <= v.
Proof.
  intros (Hd & Hv & _). rewrite <- Hv. apply decimal_value_from_nonneg; [exact Hd|lia].
Qed.

(** A number below [10 ^ w] is written on exactly [w] places. *)
Lemma fmt0d_exact (w : nat) (v : Z) :
  (1 <= w)%nat -> 0 <= v < 10 ^ Z.of_nat w -> fmt.fmt0d w v = fixed_digits w v "".
Proof.
  intros Hw [H0 H1]. rewrite fmt0d_nonneg by exact H0. f_equal.
  destruct (width_of_bounds v H0) as (W1 & _ & W3).
  destruct (Nat.le_gt_cases (width_of v) w) as [L|G]; [lia|].
  exfalso. specialize (W3 ltac:(lia)).
  assert (10 ^ Z.of_nat w <= 10 ^ Z.of_nat (Nat.pred (width_of v)))
    by (apply Z.pow_le_mono_r; lia).
  lia.
Qed.

Lemma days_in_month_le_31 (y m : Z) : days_in_month y m <= 31.
Proof.
  unfold days_in_month.
  destruct (m =? 2); [destruct (leap_year y); lia|].
  destruct ((m =? 4) || (m =? 6) || (m =? 9) || (m =? 11)); lia.
Qed.

(** The string that [Date.String] writes for a calendar date of a year
    between 0 and 9999 is that date in the form [YYYY-MM-DD]. *)
Lemma Date_String_YYYY_MM_DD (d : Date) :
  valid_date d -> 0 <= Year d <= 9999 -> YYYY_MM_DD (Date_String d) d.
Proof.
  intros V HY. pose proof V as [HM HD].
  pose proof (days_in_month_le_31 (Year d) (Month d)) as H31.
  unfold Date_String.
  rewrite (fmt0d_exact 4 (Year d)) by (simpl; lia).
  rewrite (fmt0d_exact 2 (Month d)) by (simpl; lia).
  rewrite (fmt0d_exact 2 (Day d)) by (simpl; lia).
  exists (byte_of (48 + (Year d / 10 / 10 / 10) mod 10)),
         (byte_of (48 + (Year d / 10 / 10) mod 10)),
         (byte_of (48 + (Year d / 10) mod 10)),
         (byte_of (48 + Year d mod 10)),
         (byte_of (48 + (Month d / 10) mod 10)), (byte_of (48 + Month d mod 10)),
         (byte_of (48 + (Day d / 10) mod 10)), (byte_of (48 + Day d mod 10)).
  split; [reflexivity|].
  repeat (split; [apply is_digit_byte_of, Z.mod_pos_bound; lia|]).
  split; [|split; [|split; [|exact V]]].
  - change (String _ (String _ (String _ (String _ ""))))
      with (fixed_digits 4 (Year d) "").
    unfold decimal_value. rewrite fixed_digits_value. simpl decimal_value_from.
    rewrite Z.mod_small; simpl; lia.
  - change (String _ (String _ "")) with (fixed_digits 2 (Month d) "").
    unfold decimal_value. rewrite fixed_digits_value. simpl decimal_value_from.
    rewrite Z.mod_small; simpl; lia.
  - change (String _ (String _ "")) with (fixed_digits 2 (Day d) "").
    unfold decimal_value. rewrite fixed_digits_value. simpl decimal_value_from.
    rewrite Z.mod_small; simpl; lia.
Qed.

Lemma parseDate_iff (s : string) (d : Date) : parseDate s = inr d <-> YYYY_MM_DD s d.
Proof.
  unfold parseDate. split.
  - destruct (time.Parse_date s) as [e|t] eqn:P; [discriminate|].
    intros H. cbn in H. injection H as <-. apply Parse_date_sound. exact P.
  - intros H. rewrite (Parse_date_complete s d H). destruct d. reflexivity.
Qed.

Lemma parseDate_error_kind (s : string) (e : error) :
  parseDate s = inl e -> error_kind e = Some DecodeError.
Proof.
  unfold parseDate. destruct (time.Parse_date s) as [e'|t]; [|discriminate].
  intros H. injection H as <-. reflexivity.
Qed.

(** ** The date codec *)

(** C9, as amended.  For every [Date], [Date.String] writes the year, the
    month and the day in decimal, joined by [-], each zero-padded as [%04d],
    [%02d], [%02d] pad: to at least 4 (2, 2) places, where the minus sign of a
    negative field takes one of the places.  Hence for every [Date] whose
    fields are not negative the string has the form YYYY-MM-DD with the year
    on at least 4 digits and the month and day on at least 2.  The three
    examples of the specification evaluate as stated. *)
Theorem Date_String_fields (d : Date) :
  (exists ys ms ds,
      Date_String d = ys ++ "-" ++ ms ++ "-" ++ ds
      /\ signed_padded_decimal 4 (Year d) ys
      /\ signed_padded_decimal 2 (Month d) ms
      /\ signed_padded_decimal 2 (Day d) ds)
  /\ (0 <= Year d /\ 0 <= Month d /\ 0 <= Day d ->
      exists ys ms ds,
        Date_String d = ys ++ "-" ++ ms ++ "-" ++ ds
        /\ padded_decimal 4 (Year d) ys
        /\ padded_decimal 2 (Month d) ms
        /\ padded_decimal 2 (Day d) ds)
  /\ Date_String (mkDate 999 12 31) = "0999-12-31"
  /\ Date_String (mkDate 2020 1 2) = "2020-01-02"
  /\ Date_String (mkDate 1993 10 10) = "1993-10-10".
Proof.
  assert (G : exists ys ms ds,
             Date_String d = ys ++ "-" ++ ms ++ "-" ++ ds
             /\ signed_padded_decimal 4 (Year d) ys
             /\ signed_padded_decimal 2 (Month d) ms
             /\ signed_padded_decimal 2 (Day d) ds).
  { exists (fmt.fmt0d 4 (Year d)), (fmt.fmt0d 2 (Month d)), (fmt.fmt0d 2 (Day d)).
    split; [reflexivity|]. repeat split; apply fmt0d_signed_padded; lia. }
  split; [exact G|]. split; [|repeat split; reflexivity].
  intros (HY & HM & HD). destruct G as (ys & ms & ds & E & PY & PM & PD).
  exists ys, ms, ds. split; [exact E|].
  unfold signed_padded_decimal in PY, PM, PD.
  replace (Year d <? 0) with false in PY by (symmetry; apply Z.ltb_ge; lia).
  replace (Month d <? 0) with false in PM by (symmetry; apply Z.ltb_ge; lia).
  replace (Day d <? 0) with false in PD by (symmetry; apply Z.ltb_ge; lia).
  auto.
Qed.

(** C9, the claim as stated fails: for the date with year -1 the string is
    [-001-01-01], whose year is not a number written on 4 digits; a negative
    month or day is written with its sign in the same way, on one digit. *)
Lemma Date_String_negative_year :
  (Date_String (mkDate (-1) 1 1) = "-001-01-01"
   /\ ~ (exists ys ms ds,
           Date_String (mkDate (-1) 1 1) = ys ++ "-" ++ ms ++ "-" ++ ds
           /\ padded_decimal 4 (Year (mkDate (-1) 1 1)) ys
           /\ padded_decimal 2 (Month (mkDate (-1) 1 1)) ms
           /\ padded_decimal 2 (Day (mkDate (-1) 1 1)) ds))
  /\ (Date_String (mkDate 2020 (-3) (-2)) = "2020--3--2"
      /\ ~ (exists ys ms ds,
              Date_String (mkDate 2020 (-3) (-2)) = ys ++ "-" ++ ms ++ "-" ++ ds
              /\ padded_decimal 4 (Year (mkDate 2020 (-3) (-2))) ys
              /\ padded_decimal 2 (Month (mkDate 2020 (-3) (-2))) ms
              /\ padded_decimal 2 (Day (mkDate 2020 (-3) (-2))) ds)).
Proof.
  split; (split; [reflexivity|]).
  - intros (ys & ms & ds & _ & PY & _).
    apply padded_decimal_nonneg in PY. cbn in PY. lia.
  - intros (ys & ms & ds & _ & _ & PM & _).
    apply padded_decimal_nonneg in PM. cbn in PM. lia.
Qed.

(** C4, as amended.  For every valid date whose year lies between 0 and
    9999, parsing the string written by [Date.String] gives the date back;
    through [Date.UnmarshalJSON], whenever the JSON decoder hands over that
    string, the target becomes the date and no error is returned. *)
Theorem parseDate_Date_String (d : Date) :
  valid_date d -> 0 <= Year d <= 9999 ->
  parseDate (Date_String d) = inr d
  /\ forall (E : Env) (d0 : Date) (data : string),
       data <> "null" ->
       json_Unmarshal_string data = inr (Date_String d) ->
       Date_UnmarshalJSON d0 data = (d, None).
Proof.
  intros V HY.
  assert (P : parseDate (Date_String d) = inr d)
    by (apply parseDate_iff, Date_String_YYYY_MM_DD; assumption).
  split; [exact P|].
  intros E d0 data Hn HJ. unfold Date_UnmarshalJSON.
  destruct (String.eqb data "null") eqn:En;
    [apply String.eqb_eq in En; contradiction|].
  rewrite HJ, P. reflexivity.
Qed.

(** C4 on the leap day of 2020, also through [Date.UnmarshalJSON] with the
    string literals of the simulated vendor. *)
Lemma parseDate_Date_String_witness :
  parseDate (Date_String (mkDate 2020 2 29)) = inr (mkDate 2020 2 29)
  /\ Date_UnmarshalJSON (E := Sim.vendor) (mkDate 0 0 0) (Sim.quote "2020-02-29")
     = (mkDate 2020 2 29, None).
Proof.
  destruct (parseDate_Date_String (mkDate 2020 2 29)) as [P U].
  - unfold valid_date; cbn; lia.
  - cbn; lia.
  - split; [exact P|]. apply (U Sim.vendor).
    + intros H. vm_compute in H. discriminate H.
    + reflexivity.
Defined.

(** C4, the claim as stated fails: 1 January of the year 10000 is a valid
    date, [Date.String] writes it with a five-digit year, and the parser,
    which reads exactly four digits of year, rejects that string.  Likewise
    for a year before 0: the parser wants a digit first and meets the sign. *)
Lemma roundtrip_fails_in_year_10000 :
  (valid_date (mkDate 10000 1 1)
   /\ Date_String (mkDate 10000 1 1) = "10000-01-01"
   /\ parseDate (Date_String (mkDate 10000 1 1))
      = inl (Wrapf "failed to parse date" (LibError "parsing time: cannot parse separator"))
   /\ parseDate (Date_String (mkDate 10000 1 1)) <> inr (mkDate 10000 1 1))
  /\ (valid_date (mkDate (-1) 1 1)
      /\ Date_String (mkDate (-1) 1 1) = "-001-01-01"
      /\ parseDate (Date_String (mkDate (-1) 1 1))
         = inl (Wrapf "failed to parse date" (LibError "parsing time: cannot parse year"))).
Proof.
  split.
  - split; [unfold valid_date; cbn; lia|].
    split; [reflexivity|]. split; [reflexivity|]. discriminate.
  - split; [unfold valid_date; cbn; lia|]. split; reflexivity.
Qed.

Lemma YYYY_MM_DD_shaped (s : string) (d : Date) : YYYY_MM_DD s d -> date_shaped s.
Proof.
  intros (y1 & y2 & y3 & y4 & m1 & m2 & d1 & d2 & H).
  exists y1, y2, y3, y4, m1, m2, d1, d2. tauto.
Qed.

(** C5, as amended.  [parseDate] accepts exactly the strings of the form
    YYYY-MM-DD that name a real calendar date (month 01 to 12, day within the
    month), and yields that date; every other string fails with an error of
    kind DecodeError, [not-a-date] among them; through [Date.UnmarshalJSON]
    every error is a DecodeError and leaves the target as it was, and the
    literal [null] is a no-op: the target is unchanged and no error is
    returned. *)
Theorem parseDate_accepts_exactly :
  (forall s d, parseDate s = inr d <-> YYYY_MM_DD s d)
  /\ (forall s d, parseDate s = inr d -> date_shaped s /\ valid_date d)
  /\ (forall s, ~ (exists d, YYYY_MM_DD s d) ->
        exists e, parseDate s = inl e /\ error_kind e = Some DecodeError)
  /\ (exists e, parseDate "not-a-date" = inl e /\ error_kind e = Some DecodeError)
  /\ (forall (E : Env) (d : Date), Date_UnmarshalJSON d "null" = (d, None))
  /\ (forall (E : Env) (d d' : Date) (data : string) (e : error),
        Date_UnmarshalJSON d data = (d', Some e) ->
        d' = d /\ error_kind e = Some DecodeError)
  /\ (forall (E : Env) (d : Date) (data s : string),
        data <> "null" -> json_Unmarshal_string data = inr s ->
        Date_UnmarshalJSON d data
        = match parseDate s with inl e => (d, Some e) | inr d' => (d', None) end).
Proof.
  split; [exact parseDate_iff|]. split; [|split; [|split; [|split; [|split]]]].
  - intros s d H. apply parseDate_iff in H. split; [eapply YYYY_MM_DD_shaped, H|].
    destruct H as (y1 & y2 & y3 & y4 & m1 & m2 & d1 & d2 & H). tauto.
  - intros s H. destruct (parseDate s) as [e|d] eqn:P.
    + exists e. split; [reflexivity|]. eapply parseDate_error_kind, P.
    + exfalso. apply H. exists d. apply parseDate_iff, P.
  - eexists. split; reflexivity.
  - intros E d. reflexivity.
  - intros E d d' data e. unfold Date_UnmarshalJSON.
    destruct (String.eqb data "null"); [discriminate|].
    destruct (json_Unmarshal_string data) as [err|s].
    + intros H. injection H as <- <-. split; reflexivity.
    + destruct (parseDate s) as [err|d''] eqn:P; [|discriminate].
      intros H. injection H as <- <-. split; [reflexivity|].
      eapply parseDate_error_kind, P.
  - intros E d data s Hn HJ. unfold Date_UnmarshalJSON.
    destruct (String.eqb data "null") eqn:En;
      [apply String.eqb_eq in En; contradiction|].
    rewrite HJ. destruct (parseDate s); reflexivity.
Qed.

(** C5, the claim as stated fails: [2021-02-30] has the form YYYY-MM-DD and is
    not accepted, since February has no 30th day; nor is [2021-13-01]. *)
Lemma parseDate_rejects_impossible_dates :
  date_shaped "2021-02-30"
  /\ parseDate "2021-02-30"
     = inl (Wrapf "failed to parse date" (LibError "parsing time: day out of range"))
  /\ date_shaped "2021-13-01"
  /\ parseDate "2021-13-01"
     = inl (Wrapf "failed to parse date" (LibError "parsing time: month out of range")).
Proof.
  assert (D : forall c, is_digitb c = true -> is_digit c)
    by (intros c; apply is_digitb_spec).
  split; [|split; [reflexivity|split; [|reflexivity]]].
  - exists "2"%char, "0"%char, "2"%char, "1"%char, "0"%char, "2"%char, "3"%char, "0"%char.
    repeat split; try reflexivity; apply D; reflexivity.
  - exists "2"%char, "0"%char, "2"%char, "1"%char, "1"%char, "3"%char, "0"%char, "1"%char.
    repeat split; try reflexivity; apply D; reflexivity.
Qed.

(** ** Key loading *)

(** C6.  [LoadPrivateKey] fails with a KeyError when the bytes do not parse as
    PKCS8 and when the parsed key is not an RSA key, and returns the key when
    it is one; [LoadPrivateKeyFromFile] fails with an IOError when the file
    cannot be read, with a DecodeError when its content is not base64, and
    otherwise is [LoadPrivateKey] on the decoded content of the whole file. *)
Theorem key_loading (E : Env) :
  (forall dat err,
      x509_ParsePKCS8PrivateKey dat = inl err ->
      LoadPrivateKey dat = inl (Wrapf "failed to parse key as PKCS8" err)
      /\ error_kind (Wrapf "failed to parse key as PKCS8" err) = Some KeyError)
  /\ (forall dat k,
        x509_ParsePKCS8PrivateKey dat = inr k ->
        (forall r, k <> Key_rsa r) ->
        LoadPrivateKey dat = inl (Plainf ("key was not an RSA key, was " ++ type_name k))
        /\ error_kind (Plainf ("key was not an RSA key, was " ++ type_name k)) = Some KeyError)
  /\ (forall dat r,
        x509_ParsePKCS8PrivateKey dat = inr (Key_rsa r) -> LoadPrivateKey dat = inr r)
  /\ (forall fp err,
        os_ReadFile fp = inl err ->
        LoadPrivateKeyFromFile fp = inl (Wrapf "failed to read key file" err)
        /\ error_kind (Wrapf "failed to read key file" err) = Some IOError)
  /\ (forall fp b64EncDat err,
        os_ReadFile fp = inr b64EncDat ->
        base64_DecodeString b64EncDat = inl err ->
        LoadPrivateKeyFromFile fp = inl (Wrapf "failed to base64 decode" err)
        /\ error_kind (Wrapf "failed to base64 decode" err) = Some DecodeError)
  /\ (forall fp b64EncDat dat,
        os_ReadFile fp = inr b64EncDat ->
        base64_DecodeString b64EncDat = inr dat ->
        LoadPrivateKeyFromFile fp = LoadPrivateKey dat).
Proof.
  split; [|split; [|split; [|split; [|split]]]].
  - intros dat err H. unfold LoadPrivateKey. rewrite H. split; reflexivity.
  - intros dat k H Hk. unfold LoadPrivateKey. rewrite H.
    destruct k as [r| | |]; try (split; reflexivity).
    exfalso. apply (Hk r). reflexivity.
  - intros dat r H. unfold LoadPrivateKey. now rewrite H.
  - intros fp err H. unfold LoadPrivateKeyFromFile. rewrite H. split; reflexivity.
  - intros fp b64EncDat err H H0. unfold LoadPrivateKeyFromFile. rewrite H, H0.
    split; reflexivity.
  - intros fp b64EncDat dat H H0. unfold LoadPrivateKeyFromFile. now rewrite H, H0.
Qed.

(** C6 on the simulated key files: the RSA key loads, the elliptic-curve key
    and the file that is not base64 are refused, a missing file is an IOError. *)
Lemma key_loading_witness :
  @LoadPrivateKeyFromFile (Sim.env 0 "" 0) "aplos.key" = inr "rsa-key"
  /\ @LoadPrivateKey (Sim.env 0 "" 0) "ec"
     = inl (Plainf "key was not an RSA key, was *ecdsa.PrivateKey")
  /\ @LoadPrivateKeyFromFile (Sim.env 0 "" 0) "garbled.key"
     = inl (Wrapf "failed to base64 decode" (LibError "illegal base64 data at input byte 0"))
  /\ @LoadPrivateKeyFromFile (Sim.env 0 "" 0) "missing.key"
     = inl (Wrapf "failed to read key file" (LibError "open: no such file or directory")).
Proof.
  pose proof (key_loading (Sim.env 0 "" 0)) as (_ & K2 & K3 & K4 & K5 & K6).
  split; [|split; [|split]].
  - rewrite (K6 "aplos.key" "a2V5" "key" eq_refl eq_refl).
    exact (K3 "key" "rsa-key" eq_refl).
  - exact (proj1 (K2 "ec" Key_ecdsa eq_refl ltac:(discriminate))).
  - exact (proj1 (K5 "garbled.key" "%%%" _ eq_refl eq_refl)).
  - exact (proj1 (K4 "missing.key" _ eq_refl)).
Defined.

(** ** The authentication handshake *)

Section Handshake.

Context {E : Env}.

(** Every call of [ts.Token] sends exactly one request, the handshake of its
    client identifier, whatever the outcome. *)
Lemma ts_Token_world (t : ts) (w : World) :
  snd (ts_Token t w)
  = {| clock := snd (http_RoundTrip w (auth_request (clientID t)));
       sent := (sent w ++ [auth_request (clientID t)])%list |}.
Proof.
  unfold ts_Token, bind, http_Get, http_Do, auth_request, ret.
  destruct (http_RoundTrip w _) as [[err|body] now]; [reflexivity|].
  destruct (json_Decode_authResponse body) as [err|authResp]; [reflexivity|].
  destruct (base64_DecodeString _) as [err|encToken]; [reflexivity|].
  destruct (rsa_DecryptPKCS1v15 _ _); reflexivity.
Qed.

Lemma ts_Token_sent (t : ts) (w : World) :
  sent (snd (ts_Token t w)) = (sent w ++ [auth_request (clientID t)])%list.
Proof. now rewrite ts_Token_world. Qed.

Lemma sent_grows (l : list Request) (r : Request) : (l ++ [r])%list <> l.
Proof.
  intros H. apply (f_equal (@List.length Request)) in H.
  rewrite List.length_app in H. simpl in H. lia.
Qed.

Lemma ts_Token_result (t : ts) (w : World) :
  fst (ts_Token t w)
  = match fst (http_RoundTrip w (auth_request (clientID t))) with
    | inl err => inl (Wrapf "failed to query auth endpoint" err)
    | inr body =>
        match json_Decode_authResponse body with
        | inl err => inl (Wrapf "failed to decode auth response" err)
        | inr authResp =>
            match base64_DecodeString (Token (auth_Data authResp)) with
            | inl err => inl (Wrapf "failed to base64 decode encrypted token" err)
            | inr encToken =>
                match rsa_DecryptPKCS1v15 (key t) encToken with
                | inl err => inl (Wrapf "failed to decrypt token" err)
                | inr dec =>
                    inr (oauth2.mkToken dec "Bearer" (time_Time (Expires (auth_Data authResp))))
                end
            end
        end
    end.
Proof.
  unfold ts_Token, bind, http_Get, http_Do, auth_request, ret.
  destruct (http_RoundTrip w _) as [[err|body] now]; [reflexivity|]. cbn [fst].
  destruct (json_Decode_authResponse body) as [err|authResp]; [reflexivity|].
  destruct (base64_DecodeString _) as [err|encToken]; [reflexivity|].
  destruct (rsa_DecryptPKCS1v15 _ _); reflexivity.
Qed.

End Handshake.

(** C2.  One handshake sends one request to the authentication endpoint of
    the client identifier.  When the transport fails the result is a
    NetworkError; when the body does not decode, or the token blob is not
    base64, a DecodeError; when decryption with the private key of the token
    source fails, a CryptoError; each failure wraps its cause and returns no
    token.  Otherwise the token returned has the decrypted plaintext as its
    access token, byte for byte, the type Bearer, and the envelope's
    [expires] as its expiry. *)
Theorem fetchToken_outcomes (E : Env) (t : ts) (w : World) :
  let answer := fst (http_RoundTrip w (auth_request (clientID t))) in
  sent (snd (ts_Token t w)) = (sent w ++ [auth_request (clientID t)])%list
  /\ (forall err,
        answer = inl err ->
        fst (ts_Token t w) = inl (Wrapf "failed to query auth endpoint" err)
        /\ error_kind (Wrapf "failed to query auth endpoint" err) = Some NetworkError)
  /\ (forall body err,
        answer = inr body ->
        json_Decode_authResponse body = inl err ->
        fst (ts_Token t w) = inl (Wrapf "failed to decode auth response" err)
        /\ error_kind (Wrapf "failed to decode auth response" err) = Some DecodeError)
  /\ (forall body authResp err,
        answer = inr body ->
        json_Decode_authResponse body = inr authResp ->
        base64_DecodeString (Token (auth_Data authResp)) = inl err ->
        fst (ts_Token t w) = inl (Wrapf "failed to base64 decode encrypted token" err)
        /\ error_kind (Wrapf "failed to base64 decode encrypted token" err) = Some DecodeError)
  /\ (forall body authResp encToken err,
        answer = inr body ->
        json_Decode_authResponse body = inr authResp ->
        base64_DecodeString (Token (auth_Data authResp)) = inr encToken ->
        rsa_DecryptPKCS1v15 (key t) encToken = inl err ->
        fst (ts_Token t w) = inl (Wrapf "failed to decrypt token" err)
        /\ error_kind (Wrapf "failed to decrypt token" err) = Some CryptoError)
  /\ (forall body authResp encToken dec,
        answer = inr body ->
        json_Decode_authResponse body = inr authResp ->
        base64_DecodeString (Token (auth_Data authResp)) = inr encToken ->
        rsa_DecryptPKCS1v15 (key t) encToken = inr dec ->
        fst (ts_Token t w)
        = inr {| oauth2.AccessToken := dec;
                 oauth2.TokenType := "Bearer";
                 oauth2.Expiry := time_Time (Expires (auth_Data authResp)) |}).
Proof.
  cbn zeta. split; [apply ts_Token_sent|].
  split; [|split; [|split; [|split]]].
  - intros err H. rewrite ts_Token_result, H. split; reflexivity.
  - intros body err H H1. rewrite ts_Token_result, H, H1. split; reflexivity.
  - intros body authResp err H H1 H2. rewrite ts_Token_result, H, H1, H2.
    split; reflexivity.
  - intros body authResp encToken err H H1 H2 H3.
    rewrite ts_Token_result, H, H1, H2, H3. split; reflexivity.
  - intros body authResp encToken dec H H1 H2 H3.
    rewrite ts_Token_result, H, H1, H2, H3. reflexivity.
Qed.

(** C2 on the simulated vendor: the plaintext [secret] becomes the access
    token and the envelope's expiry the token's expiry. *)
Lemma fetchToken_outcomes_witness :
  fst (@ts_Token (Sim.env (2000 * Sim.second) "secret" 200)
         (Sim.source (Sim.env (2000 * Sim.second) "secret" 200) "rsa-key") Sim.w0)
  = inr {| oauth2.AccessToken := "secret"; oauth2.TokenType := "Bearer";
           oauth2.Expiry := 2000 * Sim.second |}.
Proof.
  pose proof (fetchToken_outcomes (Sim.env (2000 * Sim.second) "secret" 200)
                (Sim.source (Sim.env (2000 * Sim.second) "secret" 200) "rsa-key") Sim.w0)
    as (_ & _ & _ & _ & _ & K).
  exact (K "auth-envelope" _ "cipher" "secret" eq_refl eq_refl eq_refl eq_refl).
Defined.

(** ** Client construction *)

Lemma error_eqb_refl (e : error) : error_eqb e e = true.
Proof.
  induction e as [m|m c IH|m]; cbn; rewrite ?String.eqb_refl, ?IH; reflexivity.
Qed.

Lemma errors_Is_wrapped (m1 m2 : string) (e : error) :
  errors_Is (Wrapf m1 (Wrapf m2 e)) e = true.
Proof.
  cbn [errors_Is]. destruct e; cbn [errors_Is]; rewrite error_eqb_refl;
    cbn; rewrite ?orb_true_r; reflexivity.
Qed.

(** C7.  [New] performs the first handshake at once: it sends exactly the
    handshake request and nothing else.  When that handshake fails with [e],
    [New] returns no client but an AuthError that wraps [e] (twice: once in
    [newTokenSource], once in [New]); when it succeeds with a token, the
    client returned holds that token. *)
Theorem New_eager_handshake (E : Env) (clientID : string) (pk : rsa_PrivateKey) (w : World) :
  let t := {| clientID := clientID; key := pk |} in
  snd (New clientID pk w) = snd (ts_Token t w)
  /\ sent (snd (New clientID pk w)) = (sent w ++ [auth_request clientID])%list
  /\ (forall e,
        fst (ts_Token t w) = inl e ->
        fst (New clientID pk w)
        = inl (Wrapf "failed to get access token" (Wrapf "failed to get token" e))
        /\ error_kind (Wrapf "failed to get access token" (Wrapf "failed to get token" e))
           = Some AuthError
        /\ errors_Is (Wrapf "failed to get access token" (Wrapf "failed to get token" e)) e
           = true)
  /\ (forall tkn,
        fst (ts_Token t w) = inr tkn ->
        fst (New clientID pk w) = inr {| http := {| rts_t := Some tkn; rts_new := t |} |}).
Proof.
  cbn zeta.
  assert (W : snd (New clientID pk w) = snd (ts_Token (mkTs clientID pk) w)).
  { unfold New, newTokenSource, bind, ret.
    destruct (ts_Token _ w) as [[e|tkn] w']; reflexivity. }
  split; [exact W|]. split; [rewrite W; apply ts_Token_sent|]. split.
  - intros e H. split; [|split; [reflexivity|apply errors_Is_wrapped]].
    unfold New, newTokenSource, bind, ret.
    destruct (ts_Token _ w) as [r w']. cbn [fst] in H. subst r. reflexivity.
  - intros tkn H. unfold New, newTokenSource, bind, ret, ReuseTokenSource.
    destruct (ts_Token _ w) as [r w']. cbn [fst] in H. subst r. reflexivity.
Qed.

(** C7 on a vendor whose ciphertext the key does not decrypt: construction
    fails and the decryption error is on the chain of the error returned. *)
Lemma New_eager_handshake_witness :
  fst (@New (Sim.env (2000 * Sim.second) "secret" 200) "client-1" "other-key" Sim.w0)
  = inl (Wrapf "failed to get access token"
           (Wrapf "failed to get token"
              (Wrapf "failed to decrypt token" (LibError "crypto/rsa: decryption error")))).
Proof.
  pose proof (New_eager_handshake (Sim.env (2000 * Sim.second) "secret" 200)
                "client-1" "other-key" Sim.w0) as (_ & _ & K & _).
  exact (proj1 (K _ eq_refl)).
Defined.

(** ** Token reuse *)

Section Reuse.

Context {E : Env}.

Lemma Valid_iff (held : oauth2.Token) (now : time.Instant) :
  oauth2.Valid (Some held) now = true
  <-> oauth2.AccessToken held <> ""
      /\ (oauth2.Expiry held = 0 \/ now + oauth2.defaultExpiryDelta <= oauth2.Expiry held).
Proof.
  unfold oauth2.Valid, oauth2.expired.
  rewrite andb_true_iff, !negb_true_iff.
  destruct (String.eqb_spec (oauth2.AccessToken held) "") as [Ea|Ea];
    [split; [intros [? _]; discriminate | intros [? _]; contradiction]|].
  destruct (Z.eqb_spec (oauth2.Expiry held) 0) as [Ee|Ee].
  - split; [intros _; split; [exact Ea|left; exact Ee] | intros _; split; reflexivity].
  - rewrite Z.ltb_ge. split.
    + intros [_ H]. split; [exact Ea|right; lia].
    + intros [_ [H|H]]; [contradiction|]. split; [reflexivity|lia].
Qed.

(** The two branches of [reuseTokenSource.Token]. *)
Lemma reuse_when_valid (s : reuseTokenSource) (w : World) (held : oauth2.Token) :
  rts_t s = Some held -> oauth2.Valid (Some held) (clock w) = true ->
  reuseTokenSource_Token s w = ((inr held, s), w).
Proof.
  intros Hs Hv. unfold reuseTokenSource_Token. rewrite Hs, Hv. reflexivity.
Qed.

Lemma refresh_when_invalid (s : reuseTokenSource) (w : World) :
  oauth2.Valid (rts_t s) (clock w) = false ->
  reuseTokenSource_Token s w
  = match fst (ts_Token (rts_new s) w) with
    | inl err => ((inl err, s), snd (ts_Token (rts_new s) w))
    | inr t => ((inr t, {| rts_t := Some t; rts_new := rts_new s |}),
                snd (ts_Token (rts_new s) w))
    end.
Proof.
  intros Hv. unfold reuseTokenSource_Token. rewrite Hv.
  destruct (ts_Token (rts_new s) w) as [[err|t] w']; destruct (rts_t s); reflexivity.
Qed.

End Reuse.

(** C3, as amended.  For every provider holding a token: when the held token
    has a non-empty access token and its expiry is unset (the zero time) or at
    least 10 seconds after the clock, [getToken] returns that same token,
    sends nothing and leaves the provider as it was; otherwise it sends
    exactly one handshake request, and when the fetch succeeds the fetched
    token replaces the held one and is returned, when it fails the error of
    the fetch is returned and the held token stays. *)
Theorem getToken_reuse_or_refresh (E : Env) (s : reuseTokenSource) (w : World) :
  (forall held,
      rts_t s = Some held ->
      oauth2.AccessToken held <> "" ->
      oauth2.Expiry held = 0 \/ clock w + oauth2.defaultExpiryDelta <= oauth2.Expiry held ->
      reuseTokenSource_Token s w = ((inr held, s), w))
  /\ (forall held,
        rts_t s = Some held ->
        oauth2.AccessToken held = ""
        \/ (oauth2.Expiry held <> 0
            /\ oauth2.Expiry held < clock w + oauth2.defaultExpiryDelta) ->
        sent (snd (reuseTokenSource_Token s w))
        = (sent w ++ [auth_request (clientID (rts_new s))])%list
        /\ snd (reuseTokenSource_Token s w) = snd (ts_Token (rts_new s) w)
        /\ (forall t,
              fst (ts_Token (rts_new s) w) = inr t ->
              fst (reuseTokenSource_Token s w)
              = (inr t, {| rts_t := Some t; rts_new := rts_new s |}))
        /\ (forall err,
              fst (ts_Token (rts_new s) w) = inl err ->
              fst (reuseTokenSource_Token s w) = (inl err, s))).
Proof.
  split.
  - intros held Hs Ha He. apply reuse_when_valid; [exact Hs|].
    apply Valid_iff. split; assumption.
  - intros held Hs Hbad.
    assert (Hv : oauth2.Valid (rts_t s) (clock w) = false).
    { rewrite Hs. destruct (oauth2.Valid (Some held) (clock w)) eqn:V; [|reflexivity].
      apply Valid_iff in V. destruct V as [Va Ve]. exfalso.
      destruct Hbad as [Hb|[Hb1 Hb2]]; [contradiction|]. destruct Ve; [contradiction|lia]. }
    rewrite (refresh_when_invalid s w Hv).
    pose proof (ts_Token_sent (rts_new s) w) as Hsent.
    destruct (ts_Token (rts_new s) w) as [[err|t] w'] eqn:T; cbn [fst snd] in *.
    + repeat split; [exact Hsent | discriminate | congruence].
    + repeat split; [exact Hsent | congruence | discriminate].
Qed.

(** C3 on the simulated vendor: a token good for an hour is returned without
    a request; a token with 5 seconds left is replaced by the fetched one. *)
Lemma getToken_reuse_or_refresh_witness :
  reuseTokenSource_Token (Sim.holding Sim.vendor "rsa-key" Sim.hour) Sim.w0
  = ((inr Sim.hour, Sim.holding Sim.vendor "rsa-key" Sim.hour), Sim.w0)
  /\ fst (reuseTokenSource_Token (Sim.holding Sim.vendor "rsa-key" Sim.soon) Sim.w0)
     = (inr {| oauth2.AccessToken := "fresh"; oauth2.TokenType := "Bearer";
               oauth2.Expiry := 5000 * Sim.second |},
        Sim.holding Sim.vendor "rsa-key"
          {| oauth2.AccessToken := "fresh"; oauth2.TokenType := "Bearer";
             oauth2.Expiry := 5000 * Sim.second |}).
Proof.
  split.
  - apply (proj1 (getToken_reuse_or_refresh Sim.vendor
                    (Sim.holding Sim.vendor "rsa-key" Sim.hour) Sim.w0) Sim.hour eq_refl).
    + discriminate.
    + right. vm_compute. discriminate.
  - destruct (proj2 (getToken_reuse_or_refresh Sim.vendor
                       (Sim.holding Sim.vendor "rsa-key" Sim.soon) Sim.w0) Sim.soon eq_refl)
      as (_ & _ & K & _).
    + right. split; [discriminate | reflexivity].
    + exact (K _ eq_refl).
Defined.

(** C3, the claim as stated fails on both halves.  A held token whose expiry
    is 5 seconds in the future is not returned: a handshake request is sent
    and the fetched token comes back; so it is for a held token good for an
    hour whose access token is empty.  A held token whose expiry is the zero
    time, long before the clock, is returned without any request.  And when
    the fetch for a lapsed token fails, no token is returned and the held
    one stays. *)
Lemma getToken_near_expiry_refetches :
  (clock Sim.w0 < oauth2.Expiry Sim.soon
   /\ sent (snd (reuseTokenSource_Token (Sim.holding Sim.vendor "rsa-key" Sim.soon) Sim.w0))
      = [auth_request "client-1"]
   /\ fst (fst (reuseTokenSource_Token (Sim.holding Sim.vendor "rsa-key" Sim.soon) Sim.w0))
      <> inr Sim.soon)
  /\ (clock Sim.w0 < oauth2.Expiry Sim.hollow
      /\ sent (snd (reuseTokenSource_Token
                      (Sim.holding Sim.vendor "rsa-key" Sim.hollow) Sim.w0))
         = [auth_request "client-1"])
  /\ (oauth2.Expiry Sim.unset < clock Sim.w0
      /\ reuseTokenSource_Token (Sim.holding Sim.vendor "rsa-key" Sim.unset) Sim.w0
         = ((inr Sim.unset, Sim.holding Sim.vendor "rsa-key" Sim.unset), Sim.w0))
  /\ (oauth2.Expiry Sim.soon < clock (mkWorld (2000 * Sim.second) [])
      /\ fst (reuseTokenSource_Token (Sim.holding Sim.vendor "other-key" Sim.soon)
                (mkWorld (2000 * Sim.second) []))
         = (inl (Wrapf "failed to decrypt token" (LibError "crypto/rsa: decryption error")),
            Sim.holding Sim.vendor "other-key" Sim.soon)).
Proof.
  split; [|split; [|split]].
  - split; [reflexivity|]. split; [reflexivity|]. vm_compute. discriminate.
  - split; reflexivity.
  - split; reflexivity.
  - split; reflexivity.
Qed.

(** C1, as amended.  When [getToken] returns the held token without a fetch,
    that token's access token is non-empty and its expiry is unset (the zero
    time) or at least 10 seconds after the clock at the moment of return.  A
    token that comes from a fetch is returned exactly as [ts.Token] built it:
    neither its access token nor its expiry is checked. *)
Theorem returned_token_invariant (E : Env) (s s' : reuseTokenSource) (w w' : World)
    (tok : oauth2.Token) :
  reuseTokenSource_Token s w = ((inr tok, s'), w') ->
  (sent w' = sent w ->
     rts_t s = Some tok /\ s' = s
     /\ oauth2.AccessToken tok <> ""
     /\ (oauth2.Expiry tok = 0
         \/ clock w' + oauth2.defaultExpiryDelta <= oauth2.Expiry tok))
  /\ (sent w' <> sent w ->
      ts_Token (rts_new s) w = (inr tok, w') /\ rts_t s' = Some tok).
Proof.
  intros H. unfold reuseTokenSource_Token in H.
  destruct (oauth2.Valid (rts_t s) (clock w)) eqn:V.
  - destruct (rts_t s) as [held|] eqn:Hs; [|discriminate V].
    injection H as <- <- <-. apply Valid_iff in V. split.
    + intros _. tauto.
    + intros Hn. contradiction.
  - pose proof (ts_Token_sent (rts_new s) w) as Hsent.
    assert (R : ts_Token (rts_new s) w = (inr tok, w')
                /\ s' = {| rts_t := Some tok; rts_new := rts_new s |}).
    { destruct (ts_Token (rts_new s) w) as [[err|t] w1]; destruct (rts_t s);
        try discriminate H; injection H as <- <- <-; split; reflexivity. }
    destruct R as [R ->]. rewrite R in Hsent. cbn [snd] in Hsent. split.
    + intros Heq. rewrite Heq in Hsent. symmetry in Hsent.
      exfalso. exact (sent_grows _ _ Hsent).
    + intros _. split; [exact R|reflexivity].
Qed.

Lemma returned_token_invariant_witness :
  (sent Sim.w0 = sent Sim.w0 ->
     rts_t (Sim.holding Sim.vendor "rsa-key" Sim.hour) = Some Sim.hour
     /\ Sim.holding Sim.vendor "rsa-key" Sim.hour = Sim.holding Sim.vendor "rsa-key" Sim.hour
     /\ oauth2.AccessToken Sim.hour <> ""
     /\ (oauth2.Expiry Sim.hour = 0
         \/ clock Sim.w0 + oauth2.defaultExpiryDelta <= oauth2.Expiry Sim.hour))
  /\ (sent Sim.w0 <> sent Sim.w0 ->
      ts_Token (rts_new (Sim.holding Sim.vendor "rsa-key" Sim.hour)) Sim.w0
      = (inr Sim.hour, Sim.w0)
      /\ rts_t (Sim.holding Sim.vendor "rsa-key" Sim.hour) = Some Sim.hour).
Proof.
  apply (returned_token_invariant Sim.vendor
           (Sim.holding Sim.vendor "rsa-key" Sim.hour)
           (Sim.holding Sim.vendor "rsa-key" Sim.hour) Sim.w0 Sim.w0 Sim.hour).
  reflexivity.
Defined.

(** C1, the claim as stated fails.  On a vendor whose envelope carries an
    expiry that is already past, the first handshake returns a token whose
    expiry lies before the clock, and so does every later [getToken], which
    fetches again and returns what it fetched.  On a vendor whose ciphertext
    decrypts to the empty string, the token returned has an empty access
    token.  And a held token whose expiry is the zero time is returned by
    [getToken] as it is, its expiry long before the clock. *)
Lemma fetched_token_is_not_checked :
  (exists tok w',
      ts_Token (E := Sim.stale) (Sim.source Sim.stale "rsa-key") Sim.w0 = (inr tok, w')
      /\ oauth2.Expiry tok < clock w')
  /\ (exists tok s' w',
        reuseTokenSource_Token (E := Sim.stale)
          (Sim.holding Sim.stale "rsa-key" Sim.soon) Sim.w0 = ((inr tok, s'), w')
        /\ oauth2.Expiry tok < clock w')
  /\ (exists tok w',
        ts_Token (E := Sim.blank) (Sim.source Sim.blank "rsa-key") Sim.w0 = (inr tok, w')
        /\ oauth2.AccessToken tok = "")
  /\ (exists tok s' w',
        reuseTokenSource_Token (E := Sim.vendor)
          (Sim.holding Sim.vendor "rsa-key" Sim.unset) Sim.w0 = ((inr tok, s'), w')
        /\ sent w' = sent Sim.w0
        /\ oauth2.Expiry tok < clock w').
Proof.
  split; [|split; [|split]].
  - eexists. eexists. split; [reflexivity|]. reflexivity.
  - eexists. eexists. eexists. split; [reflexivity|]. reflexivity.
  - eexists. eexists. split; reflexivity.
  - eexists. eexists. eexists. split; [reflexivity|]. split; reflexivity.
Qed.

(** ** Query strings *)

Lemma QueryEscape_unescaped (s : string) : unescaped s -> url.QueryEscape s = s.
Proof.
  induction s as [|c s IH]; [reflexivity|]. intros [Hc Hs].
  cbn [url.QueryEscape]. rewrite Hc, IH by exact Hs. reflexivity.
Qed.

Lemma shouldEscape_digit (c : ascii) : is_digit c -> url.shouldEscape c = false.
Proof.
  intros H. apply is_digitb_spec in H. unfold is_digitb in H.
  unfold url.shouldEscape. cbv zeta. rewrite H.
  rewrite !orb_true_r. reflexivity.
Qed.

Lemma all_digits_unescaped (s : string) : all_digits s -> unescaped s.
Proof.
  induction s as [|c s IH]; [trivial|]. intros [Hc Hs].
  split; [apply shouldEscape_digit, Hc | apply IH, Hs].
Qed.

Lemma unescaped_app (a b : string) : unescaped a -> unescaped b -> unescaped (a ++ b).
Proof.
  induction a as [|c a IH]; intros Ha Hb; [exact Hb|].
  destruct Ha as [Hc Ha]. split; [exact Hc | apply IH; assumption].
Qed.

Lemma unescaped_minus (s : string) : unescaped s -> unescaped (String "-" s).
Proof. intros H. split; [reflexivity | exact H]. Qed.

Lemma Itoa_unescaped (v : Z) : unescaped (strconv.Itoa v).
Proof.
  destruct (Z_lt_le_dec v 0) as [H|H].
  - rewrite Itoa_neg by exact H.
    apply unescaped_minus, all_digits_unescaped, fixed_digits_all_digits. exact I.
  - rewrite Itoa_nonneg by exact H.
    apply all_digits_unescaped, fixed_digits_all_digits. exact I.
Qed.

Lemma fmt0d_unescaped (w : nat) (v : Z) : unescaped (fmt.fmt0d w v).
Proof.
  destruct (Z_lt_le_dec v 0) as [H|H].
  - rewrite fmt0d_neg by exact H.
    apply unescaped_minus, all_digits_unescaped, fixed_digits_all_digits. exact I.
  - rewrite fmt0d_nonneg by exact H.
    apply all_digits_unescaped, fixed_digits_all_digits. exact I.
Qed.

Lemma Date_String_unescaped (d : Date) : unescaped (Date_String d).
Proof.
  unfold Date_String.
  apply unescaped_app; [apply fmt0d_unescaped|]. cbn [String.append].
  apply unescaped_minus.
  apply unescaped_app; [apply fmt0d_unescaped|]. cbn [String.append].
  apply unescaped_minus, fmt0d_unescaped.
Qed.

Lemma string_app_assoc (a b c : string) : (a ++ b) ++ c = a ++ (b ++ c).
Proof.
  induction a as [|x a IH]; [reflexivity|]. cbn [String.append]. now rewrite IH.
Qed.

(** The query string of [Transactions]: the parameters of the fields that
    are set, in the order of their keys. *)
Lemma Transactions_query_Encode (o : listTransactionsOpts) :
  url.Encode (Transactions_query o)
  = String.concat "&"
      (param "f_accountnumber" (option_map strconv.Itoa (accountNumber o))
       ++ param "f_rangeend" (option_map Date_String (rangeEnd o))
       ++ param "f_rangestart" (option_map Date_String (rangeStart o)))%list.
Proof.
  destruct o as [[n|] [ds|] [de|]]; unfold Transactions_query;
    cbn [accountNumber rangeStart rangeEnd option_map param];
    try pose proof (Itoa_unescaped n) as Hn;
    try pose proof (Date_String_unescaped ds) as Hs;
    try pose proof (Date_String_unescaped de) as He;
    try (revert Hn; generalize (strconv.Itoa n); intros a Ha);
    try (revert Hs; generalize (Date_String ds); intros b Hb);
    try (revert He; generalize (Date_String de); intros c Hc);
    cbn; rewrite ?QueryEscape_unescaped by assumption;
    repeat (rewrite string_app_assoc; cbn [String.append]); reflexivity.
Qed.

Lemma Transactions_query_Lookup (o : listTransactionsOpts) :
  url.Lookup (Transactions_query o) "f_accountnumber"
  = match accountNumber o with Some n => [strconv.Itoa n] | None => [] end
  /\ url.Lookup (Transactions_query o) "f_rangestart"
     = match rangeStart o with Some d => [Date_String d] | None => [] end
  /\ url.Lookup (Transactions_query o) "f_rangeend"
     = match rangeEnd o with Some d => [Date_String d] | None => [] end
  /\ forall key,
       key <> "f_accountnumber" -> key <> "f_rangestart" -> key <> "f_rangeend" ->
       url.Lookup (Transactions_query o) key = [].
Proof.
  destruct o as [[n|] [ds|] [de|]]; unfold Transactions_query;
    cbn [accountNumber rangeStart rangeEnd];
    cbn [url.Add String.eqb Ascii.eqb Bool.eqb];
    (split; [reflexivity|split; [reflexivity|split; [reflexivity|]]]);
    intros key H1 H2 H3; cbn [url.Lookup];
    repeat match goal with
      | |- context [String.eqb ?k key] =>
          replace (String.eqb k key) with false
            by (symmetry; apply String.eqb_neq; congruence)
      end;
    reflexivity.
Qed.

(** The request that an operation sends once the token source has given a
    token: the URL asked for, with the token as bearer credential. *)
Lemma ctxhttp_Get_request (E : Env) (c : Client) (url : string) (w w1 : World)
    (tok : oauth2.Token) (src : reuseTokenSource) :
  reuseTokenSource_Token (http c) w = ((inr tok, src), w1) ->
  sent (snd (ctxhttp_Get c url w))
  = (sent w1 ++ [bearer_request url tok])%list.
Proof.
  intros H. unfold ctxhttp_Get, http_Do. rewrite H.
  destruct (http_RoundTrip w1 _) as [r now]. reflexivity.
Qed.

Lemma Client_Transactions_world (E : Env) (c : Client) (opts : list ListTransactionOption)
    (w : World) :
  snd (Client_Transactions c opts w) = snd (ctxhttp_Get c (Transactions_url opts) w).
Proof.
  unfold Client_Transactions, bind, ret.
  destruct (ctxhttp_Get c (Transactions_url opts) w) as [[[err|body] c'] w']; [reflexivity|].
  destruct (json_Decode_listTransactionsResponse body); reflexivity.
Qed.

(** ** The client operations *)

(** C8.  Whatever options are passed to [Transactions], the query holds one
    value under [f_accountnumber], [f_rangestart], [f_rangeend] for each
    filter field that is set and none for a field that is not, and no other
    key; the dates are written by [Date.String]; the URL requested is the
    base URL followed by these parameters, joined by [&] in the order of
    their keys; and that URL is the one of the request sent once the token
    source has given a token.  The three filters of the example give
    [f_accountnumber=42&f_rangeend=2020-01-31&f_rangestart=2020-01-01]. *)
Theorem Transactions_filters (E : Env) (opts : list ListTransactionOption) :
  let o := Transactions_opts opts in
  let q := Transactions_query o in
  url.Lookup q "f_accountnumber"
  = match accountNumber o with Some n => [strconv.Itoa n] | None => [] end
  /\ url.Lookup q "f_rangestart"
     = match rangeStart o with Some d => [Date_String d] | None => [] end
  /\ url.Lookup q "f_rangeend"
     = match rangeEnd o with Some d => [Date_String d] | None => [] end
  /\ (forall key,
        key <> "f_accountnumber" -> key <> "f_rangestart" -> key <> "f_rangeend" ->
        url.Lookup q key = [])
  /\ Transactions_url opts
     = "https://www.aplos.com/hermes/api/v1/transactions?"
       ++ String.concat "&"
            (param "f_accountnumber" (option_map strconv.Itoa (accountNumber o))
             ++ param "f_rangeend" (option_map Date_String (rangeEnd o))
             ++ param "f_rangestart" (option_map Date_String (rangeStart o)))%list
  /\ (forall (c : Client) (w w1 : World) (tok : oauth2.Token) (src : reuseTokenSource),
        reuseTokenSource_Token (http c) w = ((inr tok, src), w1) ->
        sent (snd (Client_Transactions c opts w))
        = (sent w1 ++ [bearer_request (Transactions_url opts) tok])%list)
  /\ Transactions_url Sim.january
     = "https://www.aplos.com/hermes/api/v1/transactions?f_accountnumber=42&f_rangeend=2020-01-31&f_rangestart=2020-01-01".
Proof.
  cbn zeta.
  destruct (Transactions_query_Lookup (Transactions_opts opts)) as (L1 & L2 & L3 & L4).
  split; [exact L1|]. split; [exact L2|]. split; [exact L3|]. split; [exact L4|].
  split; [|split].
  - unfold Transactions_url. now rewrite Transactions_query_Encode.
  - intros c w w1 tok src H. rewrite Client_Transactions_world.
    apply (ctxhttp_Get_request E c _ w w1 tok src H).
  - reflexivity.
Qed.

(** C8 on the simulated vendor: a client holding a token good for an hour
    sends one request, with the three parameters of the example. *)
Lemma Transactions_filters_witness :
  sent (snd (Client_Transactions (Sim.client Sim.vendor "rsa-key" Sim.hour)
               Sim.january Sim.w0))
  = [{| req_url := "https://www.aplos.com/hermes/api/v1/transactions?f_accountnumber=42&f_rangeend=2020-01-31&f_rangestart=2020-01-01";
        req_authorization := Some "Bearer secret" |}].
Proof.
  pose proof (Transactions_filters Sim.vendor Sim.january) as (_ & _ & _ & _ & _ & K & U).
  cbn zeta in K.
  rewrite (K (Sim.client Sim.vendor "rsa-key" Sim.hour) Sim.w0 Sim.w0 Sim.hour
             (Sim.holding Sim.vendor "rsa-key" Sim.hour) eq_refl).
  rewrite U. reflexivity.
Defined.

(** C10.  No operation looks at the [version] or [status] of the envelope:
    whenever the body of the response decodes to an envelope, with whatever
    version and status, the operation returns the payload of its [data] as a
    success. *)
Theorem envelope_status_is_ignored (E : Env) (c c' : Client) (w w' : World) (body : string) :
  (forall opts version status data,
      ctxhttp_Get c (Accounts_url opts) w = ((inr body, c'), w') ->
      json_Decode_listAccountsResponse body
      = inr {| listAccounts_Version := version; listAccounts_Status := status;
               listAccounts_Data := data |} ->
      Client_Accounts c opts w = ((inr (Data_Accounts data), c'), w'))
  /\ (forall id version status data,
        ctxhttp_Get c (Transaction_url id) w = ((inr body, c'), w') ->
        json_Decode_getTransactionResponse body
        = inr {| getTransaction_Version := version; getTransaction_Status := status;
                 getTransaction_Data := data |} ->
        Client_Transaction c id w = ((inr (Data_Transaction data), c'), w'))
  /\ (forall opts version status data,
        ctxhttp_Get c (Transactions_url opts) w = ((inr body, c'), w') ->
        json_Decode_listTransactionsResponse body
        = inr {| listTransactions_Version := version; listTransactions_Status := status;
                 listTransactions_Data := data |} ->
        Client_Transactions c opts w = ((inr (Data_Transactions data), c'), w')).
Proof.
  split; [|split].
  - intros opts version status data H D.
    unfold Client_Accounts, bind, ret. rewrite H, D. reflexivity.
  - intros id version status data H D.
    unfold Client_Transaction, bind, ret. rewrite H, D. reflexivity.
  - intros opts version status data H D.
    unfold Client_Transactions, bind, ret. rewrite H, D. reflexivity.
Qed.

(** C10 on the vendor that answers with status 500: the accounts of the
    payload come back as a success. *)
Lemma envelope_status_is_ignored_witness :
  fst (fst (Client_Accounts (Sim.client Sim.failing "rsa-key" Sim.hour)
              [WithAccountName "Salaries"] Sim.w0))
  = inr [Sim.salaries].
Proof.
  pose proof (envelope_status_is_ignored Sim.failing
                (Sim.client Sim.failing "rsa-key" Sim.hour)
                (Sim.client Sim.failing "rsa-key" Sim.hour)
                Sim.w0 (snd (Client_Accounts (Sim.client Sim.failing "rsa-key" Sim.hour)
                               [WithAccountName "Salaries"] Sim.w0))
                "data-envelope") as (K & _ & _).
  rewrite (K [WithAccountName "Salaries"] "v1" 500
             {| Data_Accounts := [Sim.salaries] |} eq_refl eq_refl).
  reflexivity.
Defined.

(** * Further properties of the code *)

(** ** Decimal strings, read back *)

Lemma decimal_value_from_split (s : string) : forall x,
  decimal_value_from x s
  = x * 10 ^ Z.of_nat (String.length s) + decimal_value_from 0 s.
Proof.
  induction s as [|c s IH]; intros x.
  - simpl. lia.
  - cbn [decimal_value_from String.length].
    rewrite IH, (IH (0 * 10 + (byte_val c - 48))).
    rewrite Nat2Z.inj_succ, Z.pow_succ_r by lia. ring.
Qed.

Lemma decimal_value_bound (s : string) :
  all_digits s -> 0 <= decimal_value_from 0 s < 10 ^ Z.of_nat (String.length s).
Proof.
  induction s as [|c s IH]; intros H.
  - simpl. lia.
  - destruct H as [Hc Hs]. specialize (IH Hs).
    cbn [decimal_value_from String.length]. rewrite decimal_value_from_split.
    rewrite Nat2Z.inj_succ, Z.pow_succ_r by lia.
    apply digit_value_range in Hc. nia.
Qed.

Lemma string_app_nil_r (s : string) : s ++ "" = s.
Proof.
  induction s as [|c s IH]; [reflexivity|]. cbn [String.append]. now rewrite IH.
Qed.

Lemma fixed_digits_app (k : nat) : forall u buf rest,
  fixed_digits k u buf ++ rest = fixed_digits k u (buf ++ rest).
Proof.
  induction k as [|k IH]; intros u buf rest; [reflexivity|].
  cbn [fixed_digits]. rewrite IH. reflexivity.
Qed.

(** Writing the value of [k] digits on [k] places gives the digits back. *)
Lemma fixed_digits_decimal (s : string) : forall x buf,
  all_digits s ->
  fixed_digits (String.length s) (decimal_value_from x s) buf = s ++ buf.
Proof.
  induction s as [|c s IH]; intros x buf H; [reflexivity|].
  destruct H as [Hc Hs]. cbn [String.length decimal_value_from].
  rewrite fixed_digits_front, IH by exact Hs. cbn [String.append]. f_equal.
  rewrite decimal_value_from_split.
  pose proof (decimal_value_bound s Hs) as B.
  assert (P : 0 < 10 ^ Z.of_nat (String.length s)) by (apply Z.pow_pos_nonneg; lia).
  rewrite Z.div_add_l by lia. rewrite (Z.div_small (decimal_value_from 0 s)) by lia.
  rewrite Z.add_0_r.
  apply digit_value_range in Hc.
  replace ((x * 10 + (byte_val c - 48)) mod 10) with (byte_val c - 48)
    by (rewrite (Z.add_comm (x * 10)), Z.mod_add by lia;
        symmetry; apply Z.mod_small; lia).
  replace (48 + (byte_val c - 48)) with (byte_val c) by lia.
  apply byte_of_byte_val.
Qed.

Lemma read_digits_fixed (k : nat) : forall u buf x,
  read_digits x (fixed_digits k u buf)
  = read_digits (x * 10 ^ Z.of_nat k + u mod 10 ^ Z.of_nat k) buf.
Proof.
  induction k as [|k IH]; intros u buf x.
  - simpl. rewrite Z.mod_1_r. f_equal. lia.
  - cbn [fixed_digits]. rewrite IH. cbn [read_digits].
    assert (D : is_digit (byte_of (48 + u mod 10)))
      by (apply is_digit_byte_of, Z.mod_pos_bound; lia).
    apply is_digitb_spec in D as Db. rewrite Db.
    rewrite byte_val_byte_of
      by (pose proof (Z.mod_pos_bound u 10 ltac:(lia)); lia).
    f_equal. rewrite Nat2Z.inj_succ, Z.pow_succ_r by lia.
    rewrite (Z.rem_mul_r u 10 (10 ^ Z.of_nat k))
      by (try apply Z.pow_nonzero; try apply Z.pow_pos_nonneg; lia).
    lia.
Qed.

Lemma read_digits_stops (x : Z) (s : string) : stops s -> read_digits x s = (x, s).
Proof.
  destruct s as [|c s]; [reflexivity|]. cbn [stops read_digits]. now intros ->.
Qed.

(** [k >= 1] digits of a number below [10 ^ k], followed by something that
    is not a digit, read back as the number. *)
Lemma read_signed_fixed (k : nat) (u : Z) (rest : string) :
  (1 <= k)%nat -> 0 <= u < 10 ^ Z.of_nat k -> stops rest ->
  read_signed (fixed_digits k u rest) = (u, rest)
  /\ read_signed (String "-" (fixed_digits k u rest)) = (- u, rest).
Proof.
  intros Hk Hu Hr.
  assert (R : read_digits 0 (fixed_digits k u rest) = (u, rest)).
  { rewrite read_digits_fixed, Z.mod_small by lia.
    rewrite read_digits_stops by exact Hr. reflexivity. }
  split.
  - destruct k as [|k']; [lia|]. rewrite fixed_digits_front in *.
    unfold read_signed.
    assert (D : is_digit (byte_of (48 + (u / 10 ^ Z.of_nat k') mod 10)))
      by (apply is_digit_byte_of, Z.mod_pos_bound; lia).
    unfold is_digit in D.
    replace (byte_val (byte_of (48 + (u / 10 ^ Z.of_nat k') mod 10)) =? 45) with false
      by (symmetry; apply Z.eqb_neq; lia).
    exact R.
  - unfold read_signed. change (byte_val "-" =? 45) with true. cbv iota.
    rewrite R. reflexivity.
Qed.

Lemma read_signed_fmt0d (w : nat) (v : Z) (rest : string) :
  stops rest -> read_signed (fmt.fmt0d w v ++ rest) = (v, rest).
Proof.
  intros Hr. destruct (Z_lt_le_dec v 0) as [H|H].
  - rewrite fmt0d_neg by exact H. cbn [String.append].
    rewrite fixed_digits_app. cbn [String.append].
    destruct (width_of_bounds (- v) ltac:(lia)) as (W1 & W2 & _).
    destruct (read_signed_fixed (Nat.max (Nat.pred w) (width_of (- v))) (- v) rest)
      as [_ R]; try assumption; try lia.
    + split; [lia|]. eapply Z.lt_le_trans; [exact W2|]. apply Z.pow_le_mono_r; lia.
    + rewrite R. f_equal. lia.
  - rewrite fmt0d_nonneg by exact H. rewrite fixed_digits_app. cbn [String.append].
    destruct (width_of_bounds v H) as (W1 & W2 & _).
    apply read_signed_fixed; try assumption; try lia.
    split; [lia|]. eapply Z.lt_le_trans; [exact W2|]. apply Z.pow_le_mono_r; lia.
Qed.

Lemma read_signed_Itoa (v : Z) (rest : string) :
  stops rest -> read_signed (strconv.Itoa v ++ rest) = (v, rest).
Proof.
  intros Hr. destruct (Z_lt_le_dec v 0) as [H|H].
  - rewrite Itoa_neg by exact H. cbn [String.append].
    rewrite fixed_digits_app. cbn [String.append].
    destruct (width_of_bounds (- v) ltac:(lia)) as (W1 & W2 & _).
    destruct (read_signed_fixed (width_of (- v)) (- v) rest) as [_ R];
      try assumption; try lia.
    rewrite R. f_equal. lia.
  - rewrite Itoa_nonneg by exact H. rewrite fixed_digits_app. cbn [String.append].
    destruct (width_of_bounds v H) as (W1 & W2 & _).
    apply read_signed_fixed; try assumption; lia.
Qed.

Lemma read_date_Date_String (d : Date) : read_date (Date_String d) = Some d.
Proof.
  unfold read_date, Date_String.
  rewrite read_signed_fmt0d by reflexivity. cbn [String.append].
  rewrite read_signed_fmt0d by reflexivity. cbn [String.append].
  rewrite <- (string_app_nil_r (fmt.fmt0d 2 (Day d))).
  rewrite read_signed_fmt0d by exact I.
  destruct d. reflexivity.
Qed.

Lemma append_cancel_l (a x y : string) : a ++ x = a ++ y -> x = y.
Proof.
  induction a as [|c a IH]; [trivial|]. cbn [String.append].
  intros H. injection H as H. exact (IH H).
Qed.

(** ** The date codec, the other way round *)

(** X1.  Whatever [parseDate] accepts is canonical: the date it yields is a
    real calendar date of a year between 0 and 9999, and [Date.String] writes
    that date as exactly the string that was parsed. *)
Theorem parseDate_canonical (s : string) (d : Date) :
  parseDate s = inr d ->
  Date_String d = s /\ valid_date d /\ 0 <= Year d <= 9999.
Proof.
  intros P. apply parseDate_iff in P.
  destruct P as (y1 & y2 & y3 & y4 & m1 & m2 & d1 & d2 & -> & Hy1 & Hy2 & Hy3 & Hy4
                 & Hm1 & Hm2 & Hd1 & Hd2 & EY & EM & ED & V).
  pose proof (decimal_value_bound (String y1 (String y2 (String y3 (String y4 ""))))
                ltac:(cbn; tauto)) as BY.
  pose proof (decimal_value_bound (String m1 (String m2 "")) ltac:(cbn; tauto)) as BM.
  pose proof (decimal_value_bound (String d1 (String d2 "")) ltac:(cbn; tauto)) as BD.
  pose proof (fixed_digits_decimal (String y1 (String y2 (String y3 (String y4 "")))) 0 ""
                ltac:(cbn; tauto)) as FY.
  pose proof (fixed_digits_decimal (String m1 (String m2 "")) 0 "" ltac:(cbn; tauto)) as FM.
  pose proof (fixed_digits_decimal (String d1 (String d2 "")) 0 "" ltac:(cbn; tauto)) as FD.
  unfold decimal_value in EY, EM, ED.
  cbn [String.length] in BY, BM, BD, FY, FM, FD.
  rewrite <- EY in BY, FY. rewrite <- EM in BM, FM. rewrite <- ED in BD, FD.
  change (10 ^ Z.of_nat 4) with 10000 in BY.
  split; [|split; [exact V|lia]].
  unfold Date_String.
  rewrite (fmt0d_exact 4 (Year d)) by (simpl; lia).
  rewrite (fmt0d_exact 2 (Month d)) by (simpl; lia).
  rewrite (fmt0d_exact 2 (Day d)) by (simpl; lia).
  rewrite FY, FM, FD. reflexivity.
Qed.

Lemma parseDate_canonical_witness :
  Date_String (mkDate 2020 2 29) = "2020-02-29"
  /\ valid_date (mkDate 2020 2 29) /\ 0 <= Year (mkDate 2020 2 29) <= 9999.
Proof.
  apply (parseDate_canonical "2020-02-29" (mkDate 2020 2 29)). reflexivity.
Defined.

(** X2.  [Date.String] never writes the same string for two different
    dates, whatever integers their fields hold. *)
Theorem Date_String_injective (d1 d2 : Date) :
  Date_String d1 = Date_String d2 <-> d1 = d2.
Proof.
  split; [|now intros ->].
  intros H. apply (f_equal read_date) in H.
  rewrite !read_date_Date_String in H. now injection H.
Qed.

(** X3.  [strconv.Itoa] is injective, so two different transaction ids are
    never asked for under the same URL. *)
Theorem Transaction_url_injective (id1 id2 : Z) :
  Transaction_url id1 = Transaction_url id2 <-> id1 = id2.
Proof.
  split; [|now intros ->].
  unfold Transaction_url. intros H. apply append_cancel_l in H.
  apply (f_equal (fun s => read_signed (s ++ ""))) in H. cbv beta in H.
  rewrite !read_signed_Itoa in H by exact I. now injection H.
Qed.

(** ** Escaping in query strings *)

Lemma upperhex_val (i : Z) :
  0 <= i < 16 -> byte_val (url.upperhex i) = if i <? 10 then 48 + i else 55 + i.
Proof.
  intros H. unfold url.upperhex. destruct (i <? 10); apply byte_val_byte_of; lia.
Qed.

Lemma upperhex_unreserved (i : Z) : 0 <= i < 16 -> url.shouldEscape (url.upperhex i) = false.
Proof.
  intros H. unfold url.shouldEscape. cbv zeta. rewrite upperhex_val by exact H.
  destruct (i <? 10) eqn:E.
  - apply Z.ltb_lt in E.
    replace ((48 <=? 48 + i) && (48 + i <=? 57)) with true
      by (symmetry; apply andb_true_iff; split; apply Z.leb_le; lia).
    rewrite !orb_true_r. reflexivity.
  - apply Z.ltb_ge in E.
    replace ((65 <=? 55 + i) && (55 + i <=? 90)) with true
      by (symmetry; apply andb_true_iff; split; apply Z.leb_le; lia).
    rewrite !orb_true_r. reflexivity.
Qed.

Lemma upperhex_inj (i j : Z) :
  0 <= i < 16 -> 0 <= j < 16 -> url.upperhex i = url.upperhex j -> i = j.
Proof.
  intros Hi Hj H. apply (f_equal byte_val) in H.
  rewrite !upperhex_val in H by assumption.
  destruct (i <? 10) eqn:Ei, (j <? 10) eqn:Ej;
    rewrite ?Z.ltb_lt, ?Z.ltb_ge in Ei, Ej; lia.
Qed.

Lemma hex_halves (c : ascii) :
  0 <= byte_val c / 16 < 16 /\ 0 <= byte_val c mod 16 < 16.
Proof.
  pose proof (byte_val_range c) as R. split.
  - split; [apply Z.div_pos; lia | apply Z.div_lt_upper_bound; lia].
  - apply Z.mod_pos_bound. lia.
Qed.

Lemma QueryEscape_query_bytes (s : string) : query_bytes (url.QueryEscape s).
Proof.
  induction s as [|c s IH]; [exact I|].
  cbn [url.QueryEscape]. destruct (url.shouldEscape c) eqn:Ec.
  - destruct (byte_val c =? 32).
    + split; [right; left; reflexivity | exact IH].
    + destruct (hex_halves c) as [H1 H2].
      split; [right; right; reflexivity|].
      split; [left; apply upperhex_unreserved, H1|].
      split; [left; apply upperhex_unreserved, H2 | exact IH].
  - split; [left; exact Ec | exact IH].
Qed.

Lemma query_bytes_occurs (s : string) (c : ascii) :
  query_bytes s -> occurs c s -> query_byte c.
Proof.
  induction s as [|c' s IH]; [intros _ []|].
  intros [Hc Hs] [->|Ho]; [exact Hc | exact (IH Hs Ho)].
Qed.

(** X4.  [url.QueryEscape] writes only unreserved bytes, [+] and [%]: whatever
    name is passed to [WithAccountName], its escaped form holds none of the
    bytes that structure a URL, so a name cannot add a parameter to the query
    or leave it. *)
Theorem QueryEscape_alphabet (s : string) :
  ~ occurs "&"%char (url.QueryEscape s) /\ ~ occurs "="%char (url.QueryEscape s)
  /\ ~ occurs "?"%char (url.QueryEscape s) /\ ~ occurs "#"%char (url.QueryEscape s)
  /\ ~ occurs "/"%char (url.QueryEscape s) /\ ~ occurs " "%char (url.QueryEscape s).
Proof.
  repeat split; intros H;
    pose proof (query_bytes_occurs _ _ (QueryEscape_query_bytes s) H) as Q;
    destruct Q as [Q|[Q|Q]]; discriminate Q.
Qed.

Lemma QueryEscape_nonempty (c : ascii) (s : string) :
  url.QueryEscape (String c s) <> "".
Proof.
  cbn [url.QueryEscape].
  destruct (url.shouldEscape c); [destruct (byte_val c =? 32)|]; discriminate.
Qed.

Lemma QueryEscape_inj (a : string) : forall b,
  url.QueryEscape a = url.QueryEscape b -> a = b.
Proof.
  induction a as [|c1 a IH]; intros [|c2 b] H; try reflexivity.
  - symmetry in H. now apply QueryEscape_nonempty in H.
  - now apply QueryEscape_nonempty in H.
  - cbn [url.QueryEscape] in H.
    destruct (url.shouldEscape c1) eqn:E1, (url.shouldEscape c2) eqn:E2.
    + destruct (byte_val c1 =? 32) eqn:S1, (byte_val c2 =? 32) eqn:S2;
        try discriminate H.
      * injection H as H. apply Z.eqb_eq in S1, S2.
        f_equal; [apply byte_val_inj; congruence | apply IH, H].
      * injection H as H1 H2 H. f_equal; [|apply IH, H].
        destruct (hex_halves c1) as [A1 B1]. destruct (hex_halves c2) as [A2 B2].
        apply upperhex_inj in H1; [|assumption..].
        apply upperhex_inj in H2; [|assumption..].
        apply byte_val_inj.
        rewrite (Z.div_mod (byte_val c1) 16), (Z.div_mod (byte_val c2) 16) by lia.
        congruence.
    + destruct (byte_val c1 =? 32); injection H as <- _; discriminate E2.
    + destruct (byte_val c2 =? 32); injection H as -> _; discriminate E1.
    + injection H as -> H. f_equal. apply IH, H.
Qed.

Lemma Accounts_url_shape (opts : list ListAccountOption) :
  Accounts_url opts
  = "https://www.aplos.com/hermes/api/v1/accounts?"
    ++ match accountName (Accounts_opts opts) with
       | Some name => "f_name=" ++ url.QueryEscape name
       | None => ""
       end.
Proof.
  unfold Accounts_url, Accounts_query.
  destruct (accountName (Accounts_opts opts)); reflexivity.
Qed.

Lemma Accounts_opts_last (opts : list ListAccountOption) (name : string) :
  Accounts_opts (opts ++ [WithAccountName name]) = {| accountName := Some name |}.
Proof.
  unfold Accounts_opts. rewrite fold_left_app. reflexivity.
Qed.

(** X5.  The name filter of [Accounts]: whatever options come before it, the
    last [WithAccountName] decides; the URL requested is the base URL
    followed by [f_name=] and the escaped name, or by nothing when no option
    is given; and two different names are never sent as the same URL. *)
Theorem Accounts_name_filter :
  (forall opts name,
      Accounts_url (opts ++ [WithAccountName name])
      = "https://www.aplos.com/hermes/api/v1/accounts?f_name=" ++ url.QueryEscape name)
  /\ Accounts_url [] = "https://www.aplos.com/hermes/api/v1/accounts?"
  /\ (forall opts1 opts2 a b,
        Accounts_url (opts1 ++ [WithAccountName a])
        = Accounts_url (opts2 ++ [WithAccountName b]) <-> a = b).
Proof.
  assert (U : forall opts name,
             Accounts_url (opts ++ [WithAccountName name])
             = "https://www.aplos.com/hermes/api/v1/accounts?f_name=" ++ url.QueryEscape name).
  { intros opts name. rewrite Accounts_url_shape, Accounts_opts_last. reflexivity. }
  split; [exact U|]. split; [reflexivity|].
  intros opts1 opts2 a b. rewrite !U. split; [|now intros ->].
  intros H. apply append_cancel_l in H. apply QueryEscape_inj, H.
Qed.

(** ** Options of [Transactions] *)

Lemma apply_filters (fs : list TransactionFilter) : forall o,
  fold_left (fun o opt => opt o) (map option_of fs) o
  = {| accountNumber := match last_account fs with
                        | Some n => Some n
                        | None => accountNumber o
                        end;
       rangeStart := match last_start fs with
                     | Some d => Some d
                     | None => rangeStart o
                     end;
       rangeEnd := match last_end fs with
                   | Some d => Some d
                   | None => rangeEnd o
                   end |}.
Proof.
  induction fs as [|f fs IH]; intros o.
  - destruct o. reflexivity.
  - cbn [map fold_left last_account last_start last_end]. rewrite IH.
    destruct (last_account fs), (last_start fs), (last_end fs), f; reflexivity.
Qed.

(** X6.  However many options are passed to [Transactions], and in whatever
    order, each filter field ends up with the value of the last option given
    for it, and is absent when no option was given for it; the URL requested
    carries exactly these values. *)
Theorem Transactions_last_option_wins (fs : list TransactionFilter) :
  Transactions_opts (map option_of fs)
  = {| accountNumber := last_account fs;
       rangeStart := last_start fs;
       rangeEnd := last_end fs |}
  /\ Transactions_url (map option_of fs)
     = "https://www.aplos.com/hermes/api/v1/transactions?"
       ++ String.concat "&"
            (param "f_accountnumber" (option_map strconv.Itoa (last_account fs))
             ++ param "f_rangeend" (option_map Date_String (last_end fs))
             ++ param "f_rangestart" (option_map Date_String (last_start fs)))%list.
Proof.
  assert (O : Transactions_opts (map option_of fs)
              = {| accountNumber := last_account fs;
                   rangeStart := last_start fs;
                   rangeEnd := last_end fs |}).
  { unfold Transactions_opts. rewrite apply_filters. cbn.
    destruct (last_account fs), (last_start fs), (last_end fs); reflexivity. }
  split; [exact O|].
  unfold Transactions_url. rewrite Transactions_query_Encode, O. reflexivity.
Qed.

(** ** Operations, tokens and requests *)

Section Operations.

Context {E : Env}.

Lemma ts_Token_Bearer (t : ts) (w : World) (tok : oauth2.Token) :
  fst (ts_Token t w) = inr tok -> oauth2.TokenType tok = "Bearer".
Proof.
  rewrite ts_Token_result.
  destruct (fst (http_RoundTrip w _)) as [err|body]; [discriminate|].
  destruct (json_Decode_authResponse body) as [err|authResp]; [discriminate|].
  destruct (base64_DecodeString _) as [err|encToken]; [discriminate|].
  destruct (rsa_DecryptPKCS1v15 _ _) as [err|dec]; [discriminate|].
  intros H. injection H as <-. reflexivity.
Qed.

Lemma Type_Bearer (tok : oauth2.Token) :
  oauth2.TokenType tok = "Bearer" -> oauth2.Type_ tok = "Bearer".
Proof. unfold oauth2.Type_. intros ->. reflexivity. Qed.

(** One call of the token source, in full: either the held token is valid
    and nothing happens, or one handshake is sent and its outcome decides. *)
Lemma reuseTokenSource_Token_cases (s : reuseTokenSource) (w : World) :
  (exists held,
      rts_t s = Some held /\ oauth2.Valid (Some held) (clock w) = true
      /\ reuseTokenSource_Token s w = ((inr held, s), w))
  \/ (oauth2.Valid (rts_t s) (clock w) = false
      /\ exists w1,
           sent w1 = (sent w ++ [auth_request (clientID (rts_new s))])%list
           /\ ((exists err,
                   fst (ts_Token (rts_new s) w) = inl err
                   /\ reuseTokenSource_Token s w = ((inl err, s), w1))
               \/ (exists tok,
                     fst (ts_Token (rts_new s) w) = inr tok
                     /\ reuseTokenSource_Token s w
                        = ((inr tok, {| rts_t := Some tok; rts_new := rts_new s |}), w1)))).
Proof.
  destruct (oauth2.Valid (rts_t s) (clock w)) eqn:V.
  - left. destruct (rts_t s) as [held|] eqn:Hs; [|discriminate V].
    exists held. split; [reflexivity|]. split; [exact V|].
    apply reuse_when_valid; assumption.
  - right. split; [reflexivity|].
    exists (snd (ts_Token (rts_new s) w)). split; [apply ts_Token_sent|].
    rewrite (refresh_when_invalid s w V).
    destruct (fst (ts_Token (rts_new s) w)) as [err|tok];
      [left; exists err | right; exists tok]; split; reflexivity.
Qed.

(** [ctxhttp.Get] through the OAuth2 transport, by the outcome of the token
    source. *)
Lemma ctxhttp_Get_no_token (c : Client) (url : string) (w w1 : World)
    (err : error) (src : reuseTokenSource) :
  reuseTokenSource_Token (http c) w = ((inl err, src), w1) ->
  ctxhttp_Get c url w = ((inl err, {| http := src |}), w1).
Proof. intros H. unfold ctxhttp_Get. now rewrite H. Qed.

Lemma ctxhttp_Get_token (c : Client) (url : string) (w w1 : World)
    (tok : oauth2.Token) (src : reuseTokenSource) :
  reuseTokenSource_Token (http c) w = ((inr tok, src), w1) ->
  ctxhttp_Get c url w
  = ((fst (http_RoundTrip w1 (bearer_request url tok)), {| http := src |}),
     {| clock := snd (http_RoundTrip w1 (bearer_request url tok));
        sent := (sent w1 ++ [bearer_request url tok])%list |}).
Proof.
  intros H. unfold ctxhttp_Get, http_Do, bearer_request. rewrite H.
  destruct (http_RoundTrip w1 _) as [r now]. reflexivity.
Qed.

(** Each operation is [ctxhttp.Get] on its URL, followed by decoding that
    touches neither the client nor the world. *)
Lemma Client_Transaction_after (c : Client) (id : Z) (w : World) :
  snd (fst (Client_Transaction c id w)) = snd (fst (ctxhttp_Get c (Transaction_url id) w))
  /\ snd (Client_Transaction c id w) = snd (ctxhttp_Get c (Transaction_url id) w)
  /\ fst (fst (Client_Transaction c id w))
     = match fst (fst (ctxhttp_Get c (Transaction_url id) w)) with
       | inl err => inl (Wrapf "failed to list accounts" err)
       | inr body =>
           match json_Decode_getTransactionResponse body with
           | inl err => inl (Wrapf "failed to decode get transaction response" err)
           | inr gResp => inr (Data_Transaction (getTransaction_Data gResp))
           end
       end.
Proof.
  unfold Client_Transaction, bind, ret.
  destruct (ctxhttp_Get c (Transaction_url id) w) as [[[err|body] c'] w'];
    [repeat split|].
  cbn [fst snd]. destruct (json_Decode_getTransactionResponse body); repeat split.
Qed.

Lemma Client_Accounts_after (c : Client) (opts : list ListAccountOption) (w : World) :
  snd (fst (Client_Accounts c opts w)) = snd (fst (ctxhttp_Get c (Accounts_url opts) w))
  /\ snd (Client_Accounts c opts w) = snd (ctxhttp_Get c (Accounts_url opts) w)
  /\ fst (fst (Client_Accounts c opts w))
     = match fst (fst (ctxhttp_Get c (Accounts_url opts) w)) with
       | inl err => inl (Wrapf "failed to list accounts" err)
       | inr body =>
           match json_Decode_listAccountsResponse body with
           | inl err => inl (Wrapf "failed to decode list accounts response" err)
           | inr lResp => inr (Data_Accounts (listAccounts_Data lResp))
           end
       end.
Proof.
  unfold Client_Accounts, bind, ret.
  destruct (ctxhttp_Get c (Accounts_url opts) w) as [[[err|body] c'] w'];
    [repeat split|].
  cbn [fst snd]. destruct (json_Decode_listAccountsResponse body); repeat split.
Qed.

Lemma Client_Transactions_after (c : Client) (opts : list ListTransactionOption)
    (w : World) :
  snd (fst (Client_Transactions c opts w))
  = snd (fst (ctxhttp_Get c (Transactions_url opts) w))
  /\ snd (Client_Transactions c opts w) = snd (ctxhttp_Get c (Transactions_url opts) w)
  /\ fst (fst (Client_Transactions c opts w))
     = match fst (fst (ctxhttp_Get c (Transactions_url opts) w)) with
       | inl err => inl (Wrapf "failed to list transactions" err)
       | inr body =>
           match json_Decode_listTransactionsResponse body with
           | inl err => inl (Wrapf "failed to decode list transactions response" err)
           | inr lResp => inr (Data_Transactions (listTransactions_Data lResp))
           end
       end.
Proof.
  unfold Client_Transactions, bind, ret.
  destruct (ctxhttp_Get c (Transactions_url opts) w) as [[[err|body] c'] w'];
    [repeat split|].
  cbn [fst snd]. destruct (json_Decode_listTransactionsResponse body); repeat split.
Qed.

End Operations.

Section Calls.

Context {E : Env}.

(** Every operation leaves the client and the world that [ctxhttp.Get]
    leaves on its URL, and wraps the error of [ctxhttp.Get] under its
    message. *)
Lemma operation_after (c c' : Client) (w w' : World) (url msg : string)
    (f : option error) :
  operation c w url msg f c' w' ->
  c' = snd (fst (ctxhttp_Get c url w)) /\ w' = snd (ctxhttp_Get c url w)
  /\ forall err, fst (fst (ctxhttp_Get c url w)) = inl err -> f = Some (Wrapf msg err).
Proof.
  intros [id|opts|opts].
  - destruct (Client_Transaction_after c id w) as (A & B & C).
    split; [exact A|]. split; [exact B|]. intros err H. rewrite C, H. reflexivity.
  - destruct (Client_Accounts_after c opts w) as (A & B & C).
    split; [exact A|]. split; [exact B|]. intros err H. rewrite C, H. reflexivity.
  - destruct (Client_Transactions_after c opts w) as (A & B & C).
    split; [exact A|]. split; [exact B|]. intros err H. rewrite C, H. reflexivity.
Qed.

Lemma client_eta (c : Client) : {| http := http c |} = c.
Proof. destruct c. reflexivity. Qed.

Lemma bearer_request_data (url : string) (tok : oauth2.Token) :
  oauth2.TokenType tok = "Bearer" -> bearer_request url tok = data_request url tok.
Proof.
  intros H. unfold bearer_request, data_request. now rewrite (Type_Bearer tok H).
Qed.

(** What [New] hands back when it succeeds: a client holding the token of
    the first handshake, in the world that handshake left. *)
Lemma New_success (id : string) (pk : rsa_PrivateKey) (w : World) (c : Client) :
  fst (New id pk w) = inr c ->
  exists tok,
    fst (ts_Token {| clientID := id; key := pk |} w) = inr tok
    /\ c = {| http := {| rts_t := Some tok; rts_new := {| clientID := id; key := pk |} |} |}
    /\ snd (New id pk w) = snd (ts_Token {| clientID := id; key := pk |} w).
Proof.
  unfold New, newTokenSource, bind, ret, ReuseTokenSource.
  destruct (ts_Token _ w) as [[err|tok] w1]; cbn [fst snd]; [discriminate|].
  intros H. injection H as <-. exists tok. repeat split.
Qed.

End Calls.

(** X7.  A client built by [New] keeps its credentials and a token of type
    Bearer for ever: [New] hands back such a client, and every operation,
    whether it succeeds or fails, leaves such a client. *)
Theorem client_of_is_kept (E : Env) (id : string) (pk : rsa_PrivateKey) :
  (forall w c, fst (New id pk w) = inr c -> client_of id pk c)
  /\ (forall c c' w w' url msg f,
        client_of id pk c -> operation c w url msg f c' w' -> client_of id pk c').
Proof.
  split.
  - intros w c H.
    destruct (New_success id pk w c H) as (tok & T & -> & _).
    split; [reflexivity|]. exists tok. split; [reflexivity|].
    eapply ts_Token_Bearer, T.
  - intros c c' w w' url msg f [Hnew (held & Hheld & Hb)] Hop.
    apply operation_after in Hop. destruct Hop as (-> & _ & _).
    destruct (reuseTokenSource_Token_cases (http c) w)
      as [(h & Hh & _ & R) | (_ & w1 & _ & [(err & _ & R) | (tok & T & R)])].
    + rewrite (ctxhttp_Get_token c url w w h (http c) R). cbn [fst snd].
      rewrite client_eta. split; [exact Hnew|]. exists held. split; assumption.
    + rewrite (ctxhttp_Get_no_token c url w w1 err (http c) R). cbn [fst snd].
      rewrite client_eta. split; [exact Hnew|]. exists held. split; assumption.
    + rewrite (ctxhttp_Get_token c url w w1 tok _ R). cbn [fst snd http rts_new rts_t].
      split; [exact Hnew|]. exists tok. split; [reflexivity|].
      eapply ts_Token_Bearer, T.
Qed.

(** [ctxhttp.Get] of a client built by [New], case by case. *)
Lemma ctxhttp_Get_sends (E : Env) (id : string) (pk : rsa_PrivateKey)
    (c : Client) (url : string) (w : World) :
  client_of id pk c ->
  let t := {| clientID := id; key := pk |} in
  exists held,
    rts_t (http c) = Some held
    /\ (oauth2.Valid (Some held) (clock w) = true ->
        ctxhttp_Get c url w
        = ((fst (http_RoundTrip w (data_request url held)), c),
           {| clock := snd (http_RoundTrip w (data_request url held));
              sent := (sent w ++ [data_request url held])%list |}))
    /\ (oauth2.Valid (Some held) (clock w) = false ->
        (exists tok,
            fst (ts_Token t w) = inr tok
            /\ ctxhttp_Get c url w
               = ((fst (http_RoundTrip (snd (ts_Token t w)) (data_request url tok)),
                   {| http := {| rts_t := Some tok; rts_new := t |} |}),
                  {| clock := snd (http_RoundTrip (snd (ts_Token t w)) (data_request url tok));
                     sent := (sent w ++ [auth_request id; data_request url tok])%list |}))
        \/ (exists err,
              fst (ts_Token t w) = inl err
              /\ ctxhttp_Get c url w = ((inl err, c), snd (ts_Token t w))
              /\ sent (snd (ts_Token t w)) = (sent w ++ [auth_request id])%list)).
Proof.
  intros [Hnew (held & Hheld & Hb)]. cbn zeta.
  exists held. split; [exact Hheld|]. split.
  - intros V.
    rewrite (ctxhttp_Get_token c url w w held (http c)
               (reuse_when_valid (http c) w held Hheld V)).
    rewrite client_eta, (bearer_request_data url held Hb). reflexivity.
  - intros V. rewrite <- Hheld in V.
    pose proof (refresh_when_invalid (http c) w V) as R.
    pose proof (ts_Token_sent (rts_new (http c)) w) as S.
    rewrite Hnew in R, S. cbn [clientID] in S.
    destruct (fst (ts_Token {| clientID := id; key := pk |} w)) as [err|tok] eqn:T.
    + right. exists err. split; [reflexivity|]. split; [|exact S].
      rewrite (ctxhttp_Get_no_token c url w _ err (http c) R).
      now rewrite client_eta.
    + left. exists tok. split; [reflexivity|].
      rewrite (ctxhttp_Get_token c url w _ tok _ R).
      rewrite (bearer_request_data url tok (ts_Token_Bearer _ _ _ T)).
      rewrite S, <- List.app_assoc. reflexivity.
Qed.



(** X9.  Construction and the first call together.  After [New] has
    succeeded, having sent its handshake, the first operation sends exactly
    one more request, the data request with the fetched token, provided that
    token is usable at that moment (non-empty, and with an expiry that is
    unset or at least 10 seconds away); when it is not, the operation starts
    with a second handshake. *)
Theorem first_operation_after_New (E : Env) (id : string) (pk : rsa_PrivateKey)
    (c c' : Client) (w w1 w' : World) (url msg : string) (f : option error) :
  New id pk w = (inr c, w1) ->
  operation c w1 url msg f c' w' ->
  exists tok,
    rts_t (http c) = Some tok
    /\ sent w1 = (sent w ++ [auth_request id])%list
    /\ (oauth2.Valid (Some tok) (clock w1) = true ->
        sent w' = (sent w ++ [auth_request id; data_request url tok])%list)
    /\ (oauth2.Valid (Some tok) (clock w1) = false ->
        exists rest,
          sent w' = (sent w ++ [auth_request id; auth_request id] ++ rest)%list
          /\ (List.length rest <= 1)%nat).
Proof.
  intros HN Hop.
  assert (HN1 : fst (New id pk w) = inr c) by now rewrite HN.
  destruct (New_success id pk w c HN1) as (tok & T & Hc & Hw).
  rewrite HN in Hw. cbn [snd] in Hw.
  assert (Hs : sent w1 = (sent w ++ [auth_request id])%list)
    by (rewrite Hw, ts_Token_sent; reflexivity).
  assert (Hof : client_of id pk c).
  { subst c. split; [reflexivity|]. exists tok. split; [reflexivity|].
    eapply ts_Token_Bearer, T. }
  apply operation_after in Hop. destruct Hop as (_ & -> & _).
  destruct (ctxhttp_Get_sends E id pk c url w1 Hof) as (held & Hh & K1 & K2).
  assert (held = tok) by (subst c; cbn in Hh; congruence). subst held.
  exists tok. split; [exact Hh|]. split; [exact Hs|]. split.
  - intros V. rewrite (K1 V). cbn [snd sent]. rewrite Hs, <- List.app_assoc.
    reflexivity.
  - intros V. destruct (K2 V) as [(t2 & _ & K) | (err & _ & K & S)].
    + exists [data_request url t2]. split; [|simpl; lia].
      rewrite K. cbn [snd sent]. rewrite Hs, <- List.app_assoc. reflexivity.
    + exists []. split; [|simpl; lia].
      rewrite K. cbn [snd]. rewrite S, Hs, <- List.app_assoc. reflexivity.
Qed.

(** X9 on the simulated vendor: construction and one call of [Accounts]
    send the handshake and the data request, nothing else. *)
Lemma first_operation_after_New_witness :
  sent (snd (Client_Accounts
               (Sim.client Sim.vendor "rsa-key"
                  (oauth2.mkToken "fresh" "Bearer" (5000 * Sim.second)))
               [WithAccountName "Salaries"]
               (mkWorld (1001 * Sim.second) [auth_request "client-1"])))
  = [auth_request "client-1";
     data_request "https://www.aplos.com/hermes/api/v1/accounts?f_name=Salaries"
       (oauth2.mkToken "fresh" "Bearer" (5000 * Sim.second))].
Proof.
  destruct (first_operation_after_New Sim.vendor "client-1" "rsa-key"
              (Sim.client Sim.vendor "rsa-key"
                 (oauth2.mkToken "fresh" "Bearer" (5000 * Sim.second)))
              _ Sim.w0 (mkWorld (1001 * Sim.second) [auth_request "client-1"])
              _ _ _ _ eq_refl
              (call_Accounts _ _ [WithAccountName "Salaries"]))
    as (tok & Hh & _ & K & _).
  injection Hh as <-. exact (K eq_refl).
Defined.

(** ** The example command *)

Lemma sumLinesByAccount_from (n : Z) (lines : list TransactionLine) :
  forall (total : float) (found : bool),
    fold_left
      (fun (acc : float * bool) (l : TransactionLine) =>
         let (total, found) := acc in
         if AccountNumber (TransactionLine_Account l) =? n
         then (PrimFloat.add total (TransactionLine_Amount l), true)
         else (total, found))
      lines (total, found)
    = (fold_left PrimFloat.add
         (map TransactionLine_Amount (filter (on_account n) lines)) total,
       found || existsb (on_account n) lines).
Proof.
  induction lines as [|l lines IH]; intros total found.
  - cbn. now rewrite orb_false_r.
  - cbn [fold_left filter existsb].
    change (AccountNumber (TransactionLine_Account l) =? n) with (on_account n l).
    destruct (on_account n l); cbv beta iota; rewrite IH.
    + destruct found; reflexivity.
    + reflexivity.
Qed.

(** X10.  [sumLinesByAccount] depends on the lines of the account only: its
    total is the sum, from the left and starting from 0, of the amounts of
    the lines booked on the account, in their order; its flag says whether
    there is such a line; lines of other accounts change nothing; and with
    no line on the account the result is 0 and false. *)
Theorem sumLinesByAccount_matching (lines : list TransactionLine) (n : Z) :
  sumLinesByAccount lines n
  = (fold_left PrimFloat.add
       (map TransactionLine_Amount (filter (on_account n) lines)) PrimFloat.zero,
     existsb (on_account n) lines)
  /\ sumLinesByAccount lines n = sumLinesByAccount (filter (on_account n) lines) n
  /\ ((forall l, In l lines -> AccountNumber (TransactionLine_Account l) <> n) ->
      sumLinesByAccount lines n = (PrimFloat.zero, false)).
Proof.
  assert (S : forall ls,
             sumLinesByAccount ls n
             = (fold_left PrimFloat.add
                  (map TransactionLine_Amount (filter (on_account n) ls)) PrimFloat.zero,
                existsb (on_account n) ls))
    by (intros ls; unfold sumLinesByAccount; now rewrite sumLinesByAccount_from).
  split; [apply S|]. split.
  - rewrite !S. f_equal.
    + f_equal. f_equal. induction lines as [|l ls IH]; [reflexivity|].
      cbn [filter]. destruct (on_account n l) eqn:El; [|exact IH].
      cbn [filter]. rewrite El. f_equal. exact IH.
    + induction lines as [|l ls IH]; [reflexivity|].
      cbn [filter existsb]. destruct (on_account n l) eqn:El; [|exact IH].
      cbn [existsb]. rewrite El. reflexivity.
  - intros H. rewrite S.
    assert (F : filter (on_account n) lines = []).
    { induction lines as [|l ls IH]; [reflexivity|]. cbn [filter].
      assert (El : on_account n l = false)
        by (apply Z.eqb_neq, H; left; reflexivity).
      rewrite El. apply IH. intros l' Hl'. apply H. right. exact Hl'. }
    f_equal.
    + rewrite F. reflexivity.
    + induction lines as [|l ls IH]; [reflexivity|]. cbn [existsb].
      cbn [filter] in F. destruct (on_account n l); [discriminate F|]. apply IH.
      * intros l' Hl'. apply H. right. exact Hl'.
      * exact F.
Qed.
